(** * Location giveaway (streamlit_app.py): a shallow embedding

    The application reads a CSV of participants, computes each one's
    great-circle distance to a fixed giveaway location, draws the closest
    participant as winner and shows a leaderboard.

    Floating-point values are binary64 numbers (Rocq's primitive floats,
    which are IEEE-754 doubles like Python's [float]).  Python exceptions
    are results of type [result].  The numerical routines the script calls
    but does not define (the C library's sin, cos, atan2 and pow, and the
    text-to-double conversion inside pandas.to_numeric) are the fields of
    the class [Platform], and so is the major version of pandas, which the
    repository does not pin.  Reading the file is left to pandas: the upload
    page starts from what pd.read_csv returns, a frame or an exception.
    Rendering (the map, the banner, the table widget) is not modelled; a
    page function returns the new session state and what it reported. *)

From Stdlib Require Import Floats ZArith List String Ascii Bool Arith Lia.
From Stdlib Require Import Permutation Sorted.
Import ListNotations.

(** ** Python results *)

Inductive exn :=
| ValueError        (* "math domain error", unparsable text, argmin of nothing *)
| OverflowError     (* "math range error" *)
| AttributeError    (* the .str accessor on a non-text column *)
| KeyError          (* a column or a row label that is not there *)
| ParserError.      (* pandas.read_csv could not read the file *)

Inductive result (A : Type) :=
| Ok (a : A)
| Raise (e : exn).
Arguments Ok {A} a.
Arguments Raise {A} e.

Definition bind {A B : Type} (r : result A) (k : A -> result B) : result B :=
  match r with
  | Ok a => k a
  | Raise e => Raise e
  end.

Notation "x <- r ;; k" := (bind r (fun x => k))
  (at level 61, r at next level, right associativity).

Fixpoint mapM {A B : Type} (f : A -> result B) (l : list A) : result (list B) :=
  match l with
  | [] => Ok []
  | a :: l' => b <- f a ;; bs <- mapM f l' ;; Ok (b :: bs)
  end.

(** ** The platform: libm, the tokenizer of pandas and its version *)

(* the major versions of pandas the script runs on: they differ in what
   Series.idxmin answers on a column without a number *)
Inductive pandas_version := Pandas2 | Pandas3.

Class Platform := {
  libm_sin : float -> float;
  libm_cos : float -> float;
  libm_atan2 : float -> float -> float;
  libm_pow : float -> float -> float;
  (* text of one cell to a double; [None] when the text is not a number *)
  str_to_double : string -> option float;
  pandas_major : pandas_version
}.

(** ** CPython's math module and float power (mathmodule.c, floatobject.c) *)

Definition math_pi : float := 0x1.921fb54442d18p+1%float.

(* static const double degToRad = Py_MATH_PI / 180.0; *)
Definition degToRad : float := (math_pi / 180)%float.

(* math.radians(x) *)
Definition radians (x : float) : float := (x * degToRad)%float.

(* math_1 with can_overflow = 0: the wrapper of sin, cos and sqrt *)
Definition math_1 (f : float -> float) (x : float) : result float :=
  let r := f x in
  if PrimFloat.is_nan r && negb (PrimFloat.is_nan x) then Raise ValueError
  else if PrimFloat.is_infinity r && PrimFloat.is_finite x then Raise ValueError
  else Ok r.

Definition copysign (a b : float) : float :=
  if PrimFloat.get_sign b then (- PrimFloat.abs a)%float else PrimFloat.abs a.

(* m_atan2: the special cases CPython settles before calling libm (the
   values C Annex F prescribes for atan2) *)
Definition m_atan2 `{Platform} (y x : float) : float :=
  if PrimFloat.is_nan x || PrimFloat.is_nan y then PrimFloat.nan
  else if PrimFloat.is_infinity y then
    if PrimFloat.is_infinity x then
      if (copysign 1 x =? 1)%float then copysign (0.25 * math_pi)%float y
      else copysign (0.75 * math_pi)%float y
    else copysign (0.5 * math_pi)%float y
  else if PrimFloat.is_infinity x || (y =? 0)%float then
    if (copysign 1 x =? 1)%float then copysign 0%float y
    else copysign math_pi y
  else libm_atan2 y x.

(* math_2 applied to m_atan2 *)
Definition math_atan2 `{Platform} (y x : float) : result float :=
  let r := m_atan2 y x in
  if PrimFloat.is_nan r then
    if negb (PrimFloat.is_nan y) && negb (PrimFloat.is_nan x)
    then Raise ValueError else Ok r
  else if PrimFloat.is_infinity r then
    if PrimFloat.is_finite y && PrimFloat.is_finite x
    then Raise OverflowError else Ok r
  else Ok r.

Definition math_sin `{Platform} : float -> result float := math_1 libm_sin.
Definition math_cos `{Platform} : float -> result float := math_1 libm_cos.
Definition math_sqrt : float -> result float := math_1 PrimFloat.sqrt.

(* float_pow at the exponent 2, that is [x ** 2] *)
Definition float_pow2 `{Platform} (x : float) : result float :=
  if PrimFloat.is_nan x then Ok x
  else if PrimFloat.is_infinity x then Ok (PrimFloat.abs x)
  else if (x =? 0)%float then Ok 0%float
  else
    let ax := if (x <? 0)%float then (- x)%float else x in
    if (ax =? 1)%float then Ok 1%float
    else
      let r := libm_pow ax 2 in
      if PrimFloat.is_infinity r then Raise OverflowError else Ok r.

(** ** calculate_distance (lines 61-72) *)

(* GIVEAWAY_LOCATION = (-33.867582661116245, 151.05560569089798) *)
Definition GIVEAWAY_LOCATION : float * float :=
  ((-0x1.0ef0cf2da0914p+5)%float, 0x1.2e1c78595fc1bp+7%float).

(* the intermediate value [a] of the Haversine formula *)
Definition haversine_a `{Platform} (lat1 lon1 lat2 lon2 : float) : result float :=
  let lat1 := radians lat1 in
  let lon1 := radians lon1 in
  let lat2 := radians lat2 in
  let lon2 := radians lon2 in
  let dlon := (lon2 - lon1)%float in
  let dlat := (lat2 - lat1)%float in
  s1 <- math_sin (dlat / 2)%float ;;
  p1 <- float_pow2 s1 ;;
  c1 <- math_cos lat1 ;;
  c2 <- math_cos lat2 ;;
  s2 <- math_sin (dlon / 2)%float ;;
  p2 <- float_pow2 s2 ;;
  Ok (p1 + c1 * c2 * p2)%float.

(* 6371 * 2 * math.atan2(math.sqrt(a), math.sqrt(1-a)) *)
Definition haversine_km `{Platform} (a : float) : result float :=
  sa <- math_sqrt a ;;
  sb <- math_sqrt (1 - a)%float ;;
  t <- math_atan2 sa sb ;;
  Ok (12742 * t)%float.

Definition calculate_distance `{Platform} (lat1 lon1 lat2 lon2 : float)
  : result float :=
  a <- haversine_a lat1 lon1 lat2 lon2 ;;
  haversine_km a.

(** ** Text: the split of a coordinates cell (line 97) *)

(* \s of a str pattern, on code points below 256 *)
Definition is_space (c : ascii) : bool :=
  let n := nat_of_ascii c in
  ((9 <=? n) && (n <=? 13)) || ((28 <=? n) && (n <=? 32))
  || (n =? 133) || (n =? 160).

Definition is_comma (c : ascii) : bool := (nat_of_ascii c =? 44).

(* the greedy \s* at the head of the text: what is left after it *)
Fixpoint skip_spaces (s : string) : string :=
  match s with
  | String c s' => if is_space c then skip_spaces s' else s
  | EmptyString => s
  end.

(* the pattern \s*,\s* anchored at the head of the text: the text after the
   match, if it matches *)
Definition match_separator (s : string) : option string :=
  match skip_spaces s with
  | String c s' => if is_comma c then Some (skip_spaces s') else None
  | EmptyString => None
  end.

(* the leftmost match of the pattern: the text before it and the text after *)
Fixpoint search_separator (s : string) : option (string * string) :=
  match match_separator s with
  | Some rest => Some (EmptyString, rest)
  | None =>
      match s with
      | EmptyString => None
      | String c s' =>
          match search_separator s' with
          | Some (before, rest) => Some (String c before, rest)
          | None => None
          end
      end
  end.

(* re.split(r'\s*,\s*', s, maxsplit=1), which str.split(pat, n=1) applies to
   each cell *)
Definition regex_split1 (s : string) : list string :=
  match search_separator s with
  | Some (before, rest) => [before; rest]
  | None => [s]
  end.

(** ** Data frames *)

(* a row label: a position of the default RangeIndex, or a key when read_csv
   took the first field of each row as the index *)
Inductive label :=
| RangePos (i : nat)
| RowKey (k : string).

Definition label_eqb (a b : label) : bool :=
  match a, b with
  | RangePos i, RangePos j => (i =? j)
  | RowKey k, RowKey l => String.eqb k l
  | _, _ => false
  end.

(* a column as read_csv types it: text with missing cells (dtype object), or
   numbers (float64, int64, bool) *)
Inductive series :=
| ObjectSeries (cells : list (option string))
| NumericSeries (vals : list float).

Record DataFrame := {
  columns : list string;
  index : list label;
  data : list series
}.

Definition series_length (s : series) : nat :=
  match s with
  | ObjectSeries cs => List.length cs
  | NumericSeries vs => List.length vs
  end.

(* what read_csv returns: one column per header name, one cell per row label
   in every column *)
Definition well_formed (df : DataFrame) : bool :=
  (List.length (columns df) =? List.length (data df))
  && forallb (fun s => series_length s =? List.length (index df)) (data df).

Inductive cell :=
| Text (s : string)
| Number (v : float)
| Missing.

Definition cells_of (s : series) : list cell :=
  match s with
  | ObjectSeries cs =>
      map (fun c => match c with Some t => Text t | None => Missing end) cs
  | NumericSeries vs => map Number vs
  end.

(* df[col] *)
Fixpoint lookup_column (cols : list string) (dat : list series) (col : string)
  : result series :=
  match cols, dat with
  | c :: cols', s :: dat' =>
      if String.eqb c col then Ok s else lookup_column cols' dat' col
  | _, _ => Raise KeyError
  end.

Definition getitem (df : DataFrame) (col : string) : result series :=
  lookup_column (columns df) (data df) col.

(* series.str: only a text column has it *)
Definition str_accessor (s : series) : result (list (option string)) :=
  match s with
  | ObjectSeries cs => Ok cs
  | NumericSeries _ => Raise AttributeError
  end.

(* one row of .str.split(r'\s*,\s*', n=1, expand=True): a missing cell stays
   one missing value *)
Definition split_cell (c : option string) : list (option string) :=
  match c with
  | Some s => map Some (regex_split1 s)
  | None => [None]
  end.

(* coord_split.shape[1]: the longest row, 0 for no rows *)
Definition shape1 (rows : list (list (option string))) : nat :=
  fold_right Nat.max 0 (map (@List.length _) rows).

(* coord_split[j]: shorter rows are padded with missing values *)
Definition expand_column (j : nat) (rows : list (list (option string)))
  : list (option string) :=
  map (fun r => nth j r None) rows.

(* pd.to_numeric on a text column: a missing cell is NaN, text goes through
   the tokenizer, and the first unparsable cell raises ValueError *)
Definition to_numeric `{Platform} (cs : list (option string)) : result (list float) :=
  mapM (fun c =>
          match c with
          | None => Ok PrimFloat.nan
          | Some s =>
              match str_to_double s with
              | Some v => Ok v
              | None => Raise ValueError
              end
          end) cs.

(** ** Participants and the session state (lines 50-56) *)

Record participant := {
  name : cell;
  coordinates : option string;
  latitude : float;
  longitude : float;
  distance_km : float
}.

(* the stored frame, row by row, each row under its label *)
Definition frame := list (label * participant).

(* what .loc[label] returns: one row when the label is unique, the sub-frame
   of the rows that carry it otherwise *)
Inductive selection :=
| Row (r : label * participant)
| Rows (rs : frame).

Inductive page_name := upload | map_view | winner_view.

Record session_state := {
  page : page_name;
  participants : option frame;
  winner : option selection
}.

Definition initial_session : session_state :=
  {| page := upload; participants := None; winner := None |}.

(** ** upload_page (lines 75-118) *)

Definition columns_eqb (a b : list string) : bool :=
  if list_eq_dec string_dec a b then true else false.

Inductive rejection :=
| InvalidColumns        (* "Invalid columns. Must be: name, coordinates" *)
| InvalidCoordinates.   (* "Invalid coordinates format" *)

Inductive ingestion :=
| Rejected (why : rejection)
| Ingested (f : frame).

Fixpoint build_rows (labels : list label) (names : list cell)
  (coords : list (option string)) (lats lons dists : list float) : frame :=
  match labels, names, coords, lats, lons, dists with
  | l :: labels', n :: names', c :: coords', la :: lats', lo :: lons', d :: dists' =>
      (l, {| name := n; coordinates := c; latitude := la; longitude := lo;
             distance_km := d |})
      :: build_rows labels' names' coords' lats' lons' dists'
  | _, _, _, _, _, _ => []
  end.

(* the body of the try block, from the column check to the distances *)
Definition ingest `{Platform} (df : DataFrame) : result ingestion :=
  if negb (columns_eqb (columns df) ["name"%string; "coordinates"%string])
  then Ok (Rejected InvalidColumns)
  else
    coords <- getitem df "coordinates" ;;
    cells <- str_accessor coords ;;
    let coord_split := map split_cell cells in
    if negb (shape1 coord_split =? 2) then Ok (Rejected InvalidCoordinates)
    else
      lats <- to_numeric (expand_column 0 coord_split) ;;
      lons <- to_numeric (expand_column 1 coord_split) ;;
      dists <- mapM (fun ll =>
                       calculate_distance (fst GIVEAWAY_LOCATION)
                         (snd GIVEAWAY_LOCATION) (fst ll) (snd ll))
                    (combine lats lons) ;;
      (* the new columns are added to the frame, next to its name column *)
      names <- getitem df "name" ;;
      Ok (Ingested (build_rows (index df) (cells_of names) cells lats lons dists)).

Inductive upload_outcome :=
| NoFile                          (* nothing was uploaded in this run *)
| UploadRejected (why : rejection)
| UploadError (e : exn)           (* st.error(f"Error: {str(e)}") *)
| Uploaded.                       (* st.success, then st.rerun() *)

(* [uploaded]: the file of this run, as pd.read_csv reads it *)
Definition upload_page `{Platform} (s : session_state)
  (uploaded : option (result DataFrame)) : session_state * upload_outcome :=
  match uploaded with
  | None => (s, NoFile)
  | Some read =>
      match (df <- read ;; ingest df) with
      | Raise e => (s, UploadError e)
      | Ok (Rejected why) => (s, UploadRejected why)
      | Ok (Ingested f) =>
          ({| page := map_view; participants := Some f; winner := winner s |},
           Uploaded)
      end
  end.

(** ** Drawing the winner (lines 156-162) *)

Definition dist (r : label * participant) : float := distance_km (snd r).

(* numpy's argmin loop on doubles: [mp] is the least value so far, [best] its
   position; a later element replaces it only when [!(x >= mp)] *)
Fixpoint argmin_from (best : nat) (mp : float) (i : nat) (vs : list float) : nat :=
  match vs with
  | [] => best
  | v :: vs' =>
      if negb (mp <=? v)%float then argmin_from i v (S i) vs'
      else argmin_from best mp (S i) vs'
  end.

Definition argmin (vs : list float) : result nat :=
  match vs with
  | [] => Raise ValueError        (* attempt to get argmin of an empty sequence *)
  | v :: vs' => Ok (argmin_from 0 v 1 vs')
  end.

(* nanops.nanargmin with skipna: NaN counts as +inf *)
Definition fill_nan (v : float) : float :=
  if PrimFloat.is_nan v then PrimFloat.infinity else v.

(* Series.idxmin(): the label at the first least value that is not NaN; an
   empty column is an error in every version.  When every value is NaN there
   is no such label: pandas 3 raises ValueError ("Encountered all NA
   values"), pandas 2 answers the NA label, [None] here. *)
Definition idxmin `{Platform} (df : frame) : result (option label) :=
  i <- argmin (map (fun r => fill_nan (dist r)) df) ;;
  if forallb (fun r => PrimFloat.is_nan (dist r)) df then
    match pandas_major with
    | Pandas3 => Raise ValueError
    | Pandas2 => Ok None
    end
  else
    match nth_error df i with
    | Some r => Ok (Some (fst r))
    | None => Raise KeyError
    end.

(* df.loc[l]; the NA label is the label of no row *)
Definition loc (df : frame) (l : option label) : result selection :=
  match l with
  | None => Raise KeyError
  | Some l =>
      match filter (fun r => label_eqb (fst r) l) df with
      | [] => Raise KeyError
      | [r] => Ok (Row r)
      | rs => Ok (Rows rs)
      end
  end.

(* participants.loc[participants['distance_km'].idxmin()].copy() *)
Definition draw_winner `{Platform} (df : frame) : result selection :=
  l <- idxmin df ;;
  loc df l.

(* what the draw raises on a column without a number *)
Definition all_nan_error `{Platform} : exn :=
  match pandas_major with
  | Pandas2 => KeyError       (* .loc does not find the NA label *)
  | Pandas3 => ValueError     (* idxmin: Encountered all NA values *)
  end.

(** ** map_page (lines 121-162) *)

Inductive map_outcome :=
| NoData                   (* "No data available. Please upload a CSV first." *)
| MapShown
| WinnerDrawn              (* the winner is stored, then st.rerun() *)
| MapFault (e : exn).      (* an exception leaves map_page: nothing catches it *)

Definition map_page `{Platform} (s : session_state) (draw_clicked : bool)
  : session_state * map_outcome :=
  match participants s with
  | None => (s, NoData)
  | Some df =>
      if draw_clicked then
        match draw_winner df with
        | Ok w =>
            ({| page := winner_view; participants := Some df; winner := Some w |},
             WinnerDrawn)
        | Raise e => (s, MapFault e)
        end
      else (s, MapShown)
  end.

(** ** winner_page (lines 165-228) *)

Inductive winner_outcome :=
| NoWinnerData             (* "No winner data available...", back to upload *)
| WinnerShown (w : label * participant)
| WinnerFault (e : exn).   (* winner['name'].upper() on what is not text *)

Definition winner_page (s : session_state) : session_state * winner_outcome :=
  match participants s, winner s with
  | Some df, Some w =>
      match w with
      | Row r =>
          match name (snd r) with
          | Text _ => (s, WinnerShown r)
          | _ => (s, WinnerFault AttributeError)
          end
      | Rows _ => (s, WinnerFault AttributeError)
      end
  | _, _ =>
      ({| page := upload; participants := participants s; winner := winner s |},
       NoWinnerData)
  end.

(** The leaderboard: sort_values('distance_km') is called with its default
    kind='quicksort', which pandas documents as not stable, and with
    na_position='last'.  Its result is therefore a relation: the rows with a
    distance in some ascending order, followed by the rows without one in
    their original order. *)

Definition has_distance (r : label * participant) : bool :=
  negb (PrimFloat.is_nan (dist r)).

Definition le_km (r1 r2 : label * participant) : Prop :=
  (dist r1 <=? dist r2)%float = true.

Definition sort_values (df closest : frame) : Prop :=
  exists s,
    Permutation (filter has_distance df) s /\
    Sorted le_km s /\
    closest = s ++ filter (fun r => negb (has_distance r)) df.

(* .reset_index(drop=True) *)
Definition reset_index (f : frame) : frame :=
  combine (List.map RangePos (seq 0 (List.length f))) (List.map (@snd _ _) f).

(* closest[['name', 'distance_km']].head(10) *)
Definition head10 (closest : frame) : list (cell * float) :=
  firstn 10 (List.map (fun r => (name (snd r), distance_km (snd r))) closest).

Definition leaderboard (df : frame) (board : list (cell * float)) : Prop :=
  exists closest, sort_values df closest /\ board = head10 (reset_index closest).

(** The ranking as the specification words it: a stable sort, ties in input
    order.  It is one of the results [sort_values] allows. *)

Fixpoint insert_by_distance (r : label * participant) (s : frame) : frame :=
  match s with
  | [] => [r]
  | x :: s' =>
      if (dist r <=? dist x)%float then r :: s
      else x :: insert_by_distance r s'
  end.

Definition spec_stable_sort (df : frame) : frame :=
  fold_right insert_by_distance [] (filter has_distance df)
  ++ filter (fun r => negb (has_distance r)) df.

Definition spec_leaderboard (df : frame) : list (cell * float) :=
  head10 (reset_index (spec_stable_sort df)).

(** ** The sort that runs: numpy's generic quicksort

    sort_values hands the column to nargsort (pandas/core/sorting.py), which
    sets the NaN aside, calls ndarray.argsort(kind='quicksort') on the
    numbers and appends the positions of the NaN.  Where numpy dispatches no
    SIMD routine, that argsort is [aquicksort] of npysort/quicksort.cpp: an
    introsort that partitions around the median of three while a part has
    more than 17 elements, and sorts parts of at most 17 elements by
    insertion.  The heapsort it falls back on when the depth limit is used
    up is not modelled: the model answers [None] there, and where a loop
    would run out of fuel. *)

(* Tag::less on doubles: NaN sorts last *)
Definition npy_less (a b : float) : bool :=
  (a <? b)%float || (PrimFloat.is_nan b && negb (PrimFloat.is_nan a)).

Definition SMALL_QUICKSORT : nat := 16.

(* v[*p], for a position [p] of the index array [tosort] *)
Definition value_at (v : list float) (tosort : list nat) (p : nat) : float :=
  nth (nth p tosort 0) v PrimFloat.nan.

(* *p = x *)
Definition store {A : Type} (p : nat) (x : A) (l : list A) : list A :=
  firstn p l ++ x :: skipn (S p) l.

Definition INTP_SWAP (tosort : list nat) (p q : nat) : list nat :=
  store q (nth p tosort 0) (store p (nth q tosort 0) tosort).

(* do { ++pi; } while (less(v[*pi], vp)); *)
Fixpoint scan_right (fuel : nat) (v : list float) (tosort : list nat)
  (vp : float) (pi : nat) : option nat :=
  match fuel with
  | 0 => None
  | S fuel' =>
      if npy_less (value_at v tosort (S pi)) vp
      then scan_right fuel' v tosort vp (S pi)
      else Some (S pi)
  end.

(* do { --pj; } while (less(vp, v[*pj])); *)
Fixpoint scan_left (fuel : nat) (v : list float) (tosort : list nat)
  (vp : float) (pj : nat) : option nat :=
  match fuel with
  | 0 => None
  | S fuel' =>
      if npy_less vp (value_at v tosort (pj - 1))
      then scan_left fuel' v tosort vp (pj - 1)
      else Some (pj - 1)
  end.

(* for (;;) { scan right; scan left; if (pi >= pj) break; swap; } *)
Fixpoint partition_loop (fuel : nat) (v : list float) (tosort : list nat)
  (vp : float) (pi pj : nat) : option (list nat * nat) :=
  match fuel with
  | 0 => None
  | S fuel' =>
      match scan_right (List.length tosort) v tosort vp pi with
      | None => None
      | Some pi =>
          match scan_left (List.length tosort) v tosort vp pj with
          | None => None
          | Some pj =>
              if pj <=? pi then Some (tosort, pi)
              else partition_loop fuel' v (INTP_SWAP tosort pi pj) vp pi pj
          end
      end
  end.

(* the partition of tosort[pl..pr] around the median of its first, middle
   and last element: the index array after it and the place of the pivot *)
Definition partition (v : list float) (tosort : list nat) (pl pr : nat)
  : option (list nat * nat) :=
  let pm := pl + Nat.div2 (pr - pl) in
  let t1 := if npy_less (value_at v tosort pm) (value_at v tosort pl)
            then INTP_SWAP tosort pm pl else tosort in
  let t2 := if npy_less (value_at v t1 pr) (value_at v t1 pm)
            then INTP_SWAP t1 pr pm else t1 in
  let t3 := if npy_less (value_at v t2 pm) (value_at v t2 pl)
            then INTP_SWAP t2 pm pl else t2 in
  let vp := value_at v t3 pm in
  let pj := pr - 1 in
  let t4 := INTP_SWAP t3 pm pj in
  match partition_loop (List.length t4) v t4 vp pl pj with
  | Some (t5, pi) => Some (INTP_SWAP t5 pi (pr - 1), pi)
  | None => None
  end.

(* while (pj > pl && less(vp, v[*pk])) { *pj-- = *pk--; }  *pj = vi; *)
Fixpoint insert_left (v : list float) (tosort : list nat) (pl : nat)
  (vp : float) (vi : nat) (pj : nat) : list nat :=
  match pj with
  | 0 => store 0 vi tosort
  | S pk =>
      if (pl <? pj) && npy_less vp (value_at v tosort pk)
      then insert_left v (store pj (nth pk tosort 0) tosort) pl vp vi pk
      else store pj vi tosort
  end.

(* for (pi = pl + 1; pi <= pr; ++pi) { vi = *pi; vp = v[vi]; ... } *)
Definition insertion_sort (v : list float) (tosort : list nat) (pl pr : nat)
  : list nat :=
  fold_left (fun t pi =>
               let vi := nth pi t 0 in
               insert_left v t pl (nth vi v PrimFloat.nan) vi pi)
            (seq (pl + 1) (pr - pl)) tosort.

(* the loop of aquicksort on tosort[pl..pr]: after a partition the smaller
   part is sorted next, the larger one is pushed with the depth left and
   sorted when it is popped, by heapsort if that depth is negative *)
Fixpoint aquicksort_loop (fuel : nat) (v : list float) (tosort : list nat)
  (pl pr : nat) (cdepth : Z) : option (list nat) :=
  match fuel with
  | 0 => None
  | S fuel' =>
      if SMALL_QUICKSORT <? pr - pl then
        match partition v tosort pl pr with
        | None => None
        | Some (t, pi) =>
            let cdepth := (cdepth - 1)%Z in
            if pi - pl <? pr - pi then
              match aquicksort_loop fuel' v t pl (pi - 1) cdepth with
              | None => None
              | Some t' =>
                  if (cdepth <? 0)%Z then None
                  else aquicksort_loop fuel' v t' (pi + 1) pr cdepth
              end
            else
              match aquicksort_loop fuel' v t (pi + 1) pr cdepth with
              | None => None
              | Some t' =>
                  if (cdepth <? 0)%Z then None
                  else aquicksort_loop fuel' v t' pl (pi - 1) cdepth
              end
        end
      else Some (insertion_sort v tosort pl pr)
  end.

(* aquicksort(v, tosort, num), tosort = 0 .. num-1, depth limit
   2 * npy_get_msb(num) *)
Definition aquicksort (v : list float) : option (list nat) :=
  let num := List.length v in
  aquicksort_loop (S num) v (seq 0 num) 0 (num - 1)
                  (2 * Z.of_nat (Nat.log2 num)).

(* nargsort(items, kind='quicksort', ascending=True, na_position='last') *)
Definition nargsort (items : list float) : option (list nat) :=
  let idx := seq 0 (List.length items) in
  let non_nan_idx :=
    filter (fun i => negb (PrimFloat.is_nan (nth i items PrimFloat.nan))) idx in
  let nan_idx :=
    filter (fun i => PrimFloat.is_nan (nth i items PrimFloat.nan)) idx in
  match aquicksort (filter (fun x => negb (PrimFloat.is_nan x)) items) with
  | Some t => Some (List.map (fun k => nth k non_nan_idx 0) t ++ nan_idx)
  | None => None
  end.

(* frame.take(indexer) *)
Definition take (df : frame) (indexer : list nat) : frame :=
  flat_map (fun i => match nth_error df i with
                     | Some r => [r]
                     | None => []
                     end) indexer.

(* participants.sort_values('distance_km') where argsort is [aquicksort] *)
Definition sort_values_aquicksort (df : frame) : option frame :=
  option_map (take df) (nargsort (List.map dist df)).

(** ** The script as a state machine: one run per user action (lines 230-253) *)

Inductive event :=
| RunUpload (uploaded : option (result DataFrame))
| RunMap (draw_clicked : bool)
| RunWinner.

Definition goto (s : session_state) (p : page_name) : session_state :=
  {| page := p; participants := participants s; winner := winner s |}.

Definition run `{Platform} (s : session_state) (ev : event) : session_state :=
  match ev with
  | RunUpload uploaded => fst (upload_page (goto s upload) uploaded)
  | RunMap draw_clicked => fst (map_page (goto s map_view) draw_clicked)
  | RunWinner => fst (winner_page (goto s winner_view))
  end.

(* an uploaded file that read_csv can read is read as a well-formed frame *)
Definition event_ok (ev : event) : Prop :=
  match ev with
  | RunUpload (Some (Ok df)) => well_formed df = true
  | _ => True
  end.

Inductive reachable `{Platform} : session_state -> Prop :=
| reach_init : reachable initial_session
| reach_run s ev : reachable s -> event_ok ev -> reachable (run s ev).

(** ** A reference platform

    The theorems that quantify over [Platform] hold for every C library,
    every tokenizer and both versions of pandas.  Closed examples need one
    platform to run on; it runs pandas 2, and [pandas3_platform] is the same
    platform under pandas 3, for the one example in which the version
    matters.
    [reference_platform] reads decimal literals the way the tokenizer of
    pandas does (digits accumulated in a double, then scaled by a power of
    ten), and answers sin, cos and atan2 from a table of the values glibc
    returns on x86-64 at the arguments the examples below visit; outside the
    table it answers NaN, which [math_1] turns into a ValueError. *)

Definition is_digit (c : ascii) : bool :=
  let n := nat_of_ascii c in (48 <=? n) && (n <=? 57).

Definition digit_value (c : ascii) : float :=
  nth (nat_of_ascii c - 48) [0; 1; 2; 3; 4; 5; 6; 7; 8; 9]%float 9%float.

Definition digit_Z (c : ascii) : Z := Z.of_nat (nat_of_ascii c - 48).

Definition isspace_ascii (c : ascii) : bool :=
  let n := nat_of_ascii c in (n =? 32) || ((9 <=? n) && (n <=? 13)).

Fixpoint skip_ascii_spaces (s : string) : string :=
  match s with
  | String c s' => if isspace_ascii c then skip_ascii_spaces s' else s
  | EmptyString => s
  end.

(* the double nearest to 10^k: the entries 1e0 .. 1e308 of the table *)
Definition pow10 (k : Z) : float :=
  SF2Prim (binary_normalize prec emax (10 ^ k) 0 false).

Definition max_digits : nat := 17.

(* the digits before the decimal point: at most 17 enter [number], each
   further one only raises the exponent *)
Fixpoint scan_integer (s : string) (number : float) (num_digits : nat)
  (exponent : Z) : float * nat * Z * string :=
  match s with
  | String c s' =>
      if is_digit c then
        if num_digits <? max_digits
        then scan_integer s' (number * 10 + digit_value c)%float (S num_digits) exponent
        else scan_integer s' number num_digits (exponent + 1)%Z
      else (number, num_digits, exponent, s)
  | EmptyString => (number, num_digits, exponent, s)
  end.

(* the digits after the decimal point: each one that enters [number] lowers
   the exponent, the others are dropped *)
Fixpoint scan_fraction (s : string) (number : float) (num_digits : nat)
  (exponent : Z) : float * nat * Z * string :=
  match s with
  | String c s' =>
      if is_digit c then
        if num_digits <? max_digits
        then scan_fraction s' (number * 10 + digit_value c)%float (S num_digits)
               (exponent - 1)%Z
        else scan_fraction s' number num_digits exponent
      else (number, num_digits, exponent, s)
  | EmptyString => (number, num_digits, exponent, s)
  end.

Fixpoint scan_exponent (s : string) (n : Z) (num_digits : nat) : Z * nat * string :=
  match s with
  | String c s' =>
      if is_digit c && (num_digits <? max_digits)
      then scan_exponent s' (n * 10 + digit_Z c)%Z (S num_digits)
      else (n, num_digits, s)
  | EmptyString => (n, num_digits, s)
  end.

Definition take_sign (s : string) : bool * string :=
  match s with
  | String "-" s' => (true, s')
  | String "+" s' => (false, s')
  | _ => (false, s)
  end.

Definition scale (number : float) (exponent : Z) : option float :=
  if (308 <? exponent)%Z then None                       (* ERANGE *)
  else
    let r :=
      if (0 <? exponent)%Z then (number * pow10 exponent)%float
      else if (exponent <? -308)%Z then
        if (exponent <? -616)%Z then 0%float
        else (number / pow10 (-308 - exponent) / pow10 308)%float
      else (number / pow10 (- exponent))%float in
    if PrimFloat.is_infinity r then None else Some r.

(* a decimal literal: blanks, sign, digits, fraction, exponent, blanks *)
Definition decimal_to_double (s : string) : option float :=
  let (negative, s1) := take_sign (skip_ascii_spaces s) in
  let '(number, num_digits, exponent, s2) := scan_integer s1 0%float 0 0%Z in
  let '(number, num_digits, exponent, s3) :=
    match s2 with
    | String "." s' => scan_fraction s' number num_digits exponent
    | _ => (number, num_digits, exponent, s2)
    end in
  if num_digits =? 0 then None
  else
    let number := if negative then (- number)%float else number in
    let '(exponent, s4) :=
      match s3 with
      | String c s' =>
          if (nat_of_ascii c =? 101) || (nat_of_ascii c =? 69) then
            let (eneg, s'') := take_sign s' in
            let '(n, k, rest) := scan_exponent s'' 0%Z 0 in
            if k =? 0 then (exponent, s3)
            else ((if eneg then exponent - n else exponent + n)%Z, rest)
          else (exponent, s3)
      | EmptyString => (exponent, s3)
      end in
    match skip_ascii_spaces s4 with
    | EmptyString => scale number exponent
    | _ => None
    end.

Definition lower (c : ascii) : ascii :=
  let n := nat_of_ascii c in
  if (65 <=? n) && (n <=? 90) then ascii_of_nat (n + 32) else c.

Fixpoint lowercase (s : string) : string :=
  match s with
  | String c s' => String (lower c) (lowercase s')
  | EmptyString => EmptyString
  end.

(* one cell of pd.to_numeric: the empty text is NaN, a decimal literal is its
   double, the spellings of infinity are infinite *)
Definition cell_to_double (s : string) : option float :=
  match s with
  | EmptyString => Some PrimFloat.nan
  | _ =>
      match decimal_to_double s with
      | Some v => Some v
      | None =>
          let w := lowercase s in
          if String.eqb w "inf" || String.eqb w "+inf" || String.eqb w "infinity"
             || String.eqb w "+infinity"
          then Some PrimFloat.infinity
          else if String.eqb w "-inf" || String.eqb w "-infinity"
          then Some PrimFloat.neg_infinity
          else None
      end
  end.

Definition table_lookup (t : list (float * float)) (x : float) : float :=
  match find (fun kv => PrimFloat.Leibniz.eqb (fst kv) x) t with
  | Some kv => snd kv
  | None => PrimFloat.nan
  end.

Definition sin_table : list (float * float) :=
  [ (0, 0);
    (* (8, 0) to (-8, 180) *)
    (-0x1.1df46a2529d39p-3, -0x1.1d06c968d9e19p-3);
    (0x1.921fb54442d18p+0, 1);
    (* the giveaway location to (12.34, -56.78) *)
    (0x1.9cea38523c78ap-2, 0x1.91d0c6c52ba65p-2);
    (-0x1.d04f27b5232b7p+0, -0x1.f0f7f5fd0fd1bp-1);
    (* the giveaway location to (1, 2) *)
    (0x1.379467d37768bp-2, 0x1.32cb440bd46afp-2);
    (-0x1.4cfe50b945713p+0, -0x1.ed71f3f8a4d67p-1);
    (* the giveaway location to (3, 4) *)
    (0x1.4973ae75ca05ep-2, 0x1.43cc2ff933a77p-2);
    (-0x1.48867f10b0c9ep+0, -0x1.eafc783ca857ap-1) ]%float.

Definition cos_table : list (float * float) :=
  [ (0x1.1df46a2529d39p-3, 0x1.fb046a930947ap-1);
    (-0x1.1df46a2529d39p-3, 0x1.fb046a930947ap-1);
    (-0x1.2ea4c4824e1a1p-1, 0x1.a920b6f75687fp-1);
    (0x1.b915cf3fb97a3p-3, 0x1.f42bcaf983f0ep-1);
    (0x1.1df46a2529d39p-6, 0x1.ffec097f5af8ap-1);
    (0x1.acee9f37bebd6p-5, 0x1.ff4c5ed12e61dp-1) ]%float.

Definition atan2_table : list (float * float * float) :=
  [ (0x1.ea9c4317b199cp-1, 0x1.24e29d2851f6fp-2, 0x1.47dd95801b306p+0);
    (0x1.db0d68bb3fe6bp-1, 0x1.7df03b8394505p-2, 0x1.304625a35734fp+0);
    (0x1.db80716be9ca8p-1, 0x1.7bb1f62d0974dp-2, 0x1.30e0cec07af1bp+0) ]%float.

Definition atan2_lookup (y x : float) : float :=
  match find (fun e => PrimFloat.Leibniz.eqb (fst (fst e)) y
                       && PrimFloat.Leibniz.eqb (snd (fst e)) x) atan2_table with
  | Some e => snd e
  | None => PrimFloat.nan
  end.

#[local] Instance reference_platform : Platform := {|
  libm_sin := table_lookup sin_table;
  libm_cos := table_lookup cos_table;
  libm_atan2 := atan2_lookup;
  (* pow(x, 2.0): the square, rounded once *)
  libm_pow := fun x y => if (y =? 2)%float then (x * x)%float else PrimFloat.nan;
  str_to_double := cell_to_double;
  pandas_major := Pandas2
|}.


(** ** The split, read directly

    What the leftmost match of the separator amounts to: the cell is cut at
    its first comma, the blanks before the comma are dropped from the first
    part and the blanks after it from the second. *)

(* the text before the first comma and the text after it *)
Fixpoint cut_at_comma (s : string) : option (string * string) :=
  match s with
  | EmptyString => None
  | String c s' =>
      if is_comma c then Some (EmptyString, s')
      else
        match cut_at_comma s' with
        | Some (before, rest) => Some (String c before, rest)
        | None => None
        end
  end.

(* the text without its trailing \s characters *)
Fixpoint rstrip (s : string) : string :=
  match s with
  | EmptyString => EmptyString
  | String c s' =>
      match rstrip s' with
      | EmptyString => if is_space c then EmptyString else String c EmptyString
      | r => String c r
      end
  end.

Fixpoint has_comma (s : string) : bool :=
  match s with
  | EmptyString => false
  | String c s' => is_comma c || has_comma s'
  end.

(* the rows a selection holds *)
Definition selection_rows (sel : selection) : frame :=
  match sel with
  | Row r => [r]
  | Rows rs => rs
  end.

(* the distance of one row of the frame, as upload_page computes it *)
Definition row_distance `{Platform} (ll : float * float) : result float :=
  calculate_distance (fst GIVEAWAY_LOCATION) (snd GIVEAWAY_LOCATION)
    (fst ll) (snd ll).

(* several runs of the script, one per event *)
Definition runs `{Platform} (s : session_state) (evs : list event) : session_state :=
  fold_left run evs s.

(* a run in which no file is uploaded *)
Definition no_file (ev : event) : Prop :=
  match ev with
  | RunUpload (Some _) => False
  | _ => True
  end.

(** ** Predicates of the statements *)

(* position [j] holds the least value of [vs], and no earlier position does *)
Definition first_minimum (vs : list float) (j : nat) : Prop :=
  exists v, nth_error vs j = Some v /\
    (forall k w, nth_error vs k = Some w -> (v <=? w)%float = true) /\
    (forall k w, k < j -> nth_error vs k = Some w -> (v <? w)%float = true).

Definition populated (df : frame) : Prop :=
  Forall (fun r => PrimFloat.is_nan (dist r) = false) df.

(* what every run keeps: a winner only next to participants, and the winner
   view only next to a winner *)
Definition session_ok (s : session_state) : Prop :=
  (winner s <> None -> participants s <> None) /\
  (page s = winner_view -> winner s <> None).

(* two cells of the distance column that read the same: equal numbers, or
   both missing *)
Definition same_distance (a b : float) : bool :=
  (a =? b)%float || (PrimFloat.is_nan a && PrimFloat.is_nan b).

(* the non-negative numbers, -0 included: what [0 <=? x] accepts *)
Definition SFnonneg (x : spec_float) : Prop :=
  match x with
  | S754_zero _ | S754_finite false _ _ | S754_infinity false => True
  | _ => False
  end.

(* the sign bit of a number *)
Definition SFsign (x : spec_float) : bool :=
  match x with
  | S754_zero s | S754_infinity s | S754_finite s _ _ => s
  | S754_nan => false
  end.

(** ** Example frames

    Rows with a given distance, under the labels of the default RangeIndex. *)

Definition entrant (i : nat) (n : string) (d : float) : label * participant :=
  (RangePos i,
   {| name := Text n; coordinates := None; latitude := 0%float;
      longitude := 0%float; distance_km := d |}).

(* distances [5.0, 3.0, 3.0, 7.0]: a tie at positions 1 and 2 *)
Definition tie_frame : frame :=
  [entrant 0 "P0" 5; entrant 1 "P1" 3; entrant 2 "P2" 3; entrant 3 "P3" 7]%float.

(* [(A,3.0), (B,1.0), (C,1.0), (D,2.0)] *)
Definition abcd_frame : frame :=
  [entrant 0 "A" 3; entrant 1 "B" 1; entrant 2 "C" 1; entrant 3 "D" 2]%float.

(* a row without a distance, then rows with one *)
Definition nan_first_frame : frame :=
  [entrant 0 "N" PrimFloat.nan; entrant 1 "P" 5; entrant 2 "Q" 4]%float.

(* eighteen participants, the second and the ninth tied for the closest *)
Definition crowd_frame : frame :=
  [entrant 0 "a" 2; entrant 1 "b" 1; entrant 2 "c" 2; entrant 3 "d" 2;
   entrant 4 "e" 2; entrant 5 "f" 2; entrant 6 "g" 2; entrant 7 "h" 2;
   entrant 8 "i" 1; entrant 9 "j" 2; entrant 10 "k" 2; entrant 11 "l" 2;
   entrant 12 "m" 2; entrant 13 "n" 2; entrant 14 "o" 2; entrant 15 "p" 2;
   entrant 16 "q" 2; entrant 17 "r" 2]%float.

(* [crowd_frame] as numpy's generic quicksort orders it *)
Definition crowd_closest : frame :=
  [entrant 8 "i" 1; entrant 1 "b" 1; entrant 15 "p" 2; entrant 14 "o" 2;
   entrant 13 "n" 2; entrant 12 "m" 2; entrant 11 "l" 2; entrant 10 "k" 2;
   entrant 9 "j" 2; entrant 0 "a" 2; entrant 7 "h" 2; entrant 6 "g" 2;
   entrant 5 "f" 2; entrant 4 "e" 2; entrant 3 "d" 2; entrant 2 "c" 2;
   entrant 16 "q" 2; entrant 17 "r" 2]%float.


(* two rows under one label, as read_csv labels them when the first field of
   each row is taken as the index *)
Definition twin_frame : frame :=
  [(RowKey "X", snd (entrant 0 "Bob" 2%float));
   (RowKey "X", snd (entrant 1 "Al" 1%float));
   (RowKey "Y", snd (entrant 2 "Cy" 3%float))].

(* the closest row has an empty name cell *)
Definition unnamed_frame : frame :=
  [(RangePos 0,
    {| name := Missing; coordinates := Some "1,2"%string; latitude := 1%float;
       longitude := 2%float; distance_km := 1%float |});
   entrant 1 "P" 5%float].

(** ** Example files, as read_csv reads them *)

Definition csv (names coords : list (option string)) : DataFrame :=
  {| columns := ["name"; "coordinates"]%string;
     index := List.map RangePos (seq 0 (List.length names));
     data := [ObjectSeries names; ObjectSeries coords] |}.

(* name,coordinates / Al,"1,2" / Bo,"3,4" *)
Definition first_file : DataFrame :=
  csv [Some "Al"; Some "Bo"]%string [Some "1,2"; Some "3,4"]%string.

(* name,coordinates / Cy,"12.34, -56.78" *)
Definition second_file : DataFrame :=
  csv [Some "Cy"]%string [Some "12.34, -56.78"]%string.


(* name,coordinates / A,"12.34, -56.78" / B,3 *)
Definition lone_number_file : DataFrame :=
  csv [Some "A"; Some "B"]%string [Some "12.34, -56.78"; Some "3"]%string.

(* name,lat,lon / Al,1,2 *)
Definition three_column_file : DataFrame :=
  {| columns := ["name"; "lat"; "lon"]%string;
     index := [RangePos 0];
     data := [ObjectSeries [Some "Al"%string]; NumericSeries [1%float];
              NumericSeries [2%float]] |}.

(* name,coordinates / John Doe,-33.867582661116245,151.05560569089798: three
   fields under a two-name header, which read_csv reads with the first field
   as the index and the other two as numbers *)
Definition help_text_file : DataFrame :=
  {| columns := ["name"; "coordinates"]%string;
     index := [RowKey "John Doe"];
     data := [NumericSeries [(-0x1.0ef0cf2da0914p+5)%float];
              NumericSeries [0x1.2e1c78595fc1bp+7%float]] |}.

(* name,coordinates / A,"1,2" / B,"3,x" *)
Definition bad_number_file : DataFrame :=
  csv [Some "A"; Some "B"]%string [Some "1,2"; Some "3,x"]%string.

(* name,coordinates / A,1 / B,north: no cell holds a comma *)
Definition no_comma_file : DataFrame :=
  csv [Some "A"; Some "B"]%string [Some "1"; Some "north"]%string.

(* the header alone: no data rows *)
Definition header_only_file : DataFrame := csv [] [].

(* the rows the files above are ingested as on the reference platform *)
Definition al_row : label * participant :=
  (RangePos 0,
   {| name := Text "Al"; coordinates := Some "1,2"%string;
      latitude := 1%float; longitude := 2%float;
      distance_km := 0x1.d9461bab0034ap+13%float (* 15144.76 km *) |}).

Definition cy_row (i : nat) (n : string) : label * participant :=
  (RangePos i,
   {| name := Text n; coordinates := Some "12.34, -56.78"%string;
      latitude := 0x1.8ae147ae147aep+3%float;     (* 12.34 *)
      longitude := (-0x1.c63d70a3d70a4p+5)%float; (* -56.78 *)
      distance_km := 0x1.fdf7f7f9324a5p+13%float  (* 16319.00 km *) |}).

Definition bo_row : label * participant :=
  (RangePos 1,
   {| name := Text "Bo"; coordinates := Some "3,4"%string;
      latitude := 3%float; longitude := 4%float;
      distance_km := 0x1.da36ab96033adp+13%float (* 15174.83 km *) |}).

(* the second row of [lone_number_file], as the ingestion stores it *)
Definition lone_row : label * participant :=
  (RangePos 1,
   {| name := Text "B"; coordinates := Some "3"%string; latitude := 3;
      longitude := PrimFloat.nan; distance_km := PrimFloat.nan |}).

(* a session that already holds participants *)
Definition loaded_session : session_state :=
  {| page := upload; participants := Some tie_frame; winner := None |}.

(* upload the first file, draw, then upload the second file *)
Definition stale_session : session_state :=
  let s1 := @run reference_platform initial_session (RunUpload (Some (Ok first_file))) in
  let s2 := @run reference_platform s1 (RunMap true) in
  @run reference_platform s2 (RunUpload (Some (Ok second_file))).

(** * Facts about binary64 comparisons

    They are read off the specification of the primitive floats
    ([SFcompare] on [spec_float]). *)

Section Binary64.

Ltac cmp_cases :=
  repeat match goal with
  | |- context [Z.compare ?a ?b] => destruct (Z.compare_spec a b)
  | H : context [Z.compare ?a ?b] |- _ => destruct (Z.compare_spec a b)
  | |- context [Pos.compare ?a ?b] => destruct (Pos.compare_spec a b)
  | H : context [Pos.compare ?a ?b] |- _ => destruct (Pos.compare_spec a b)
  end.

Ltac by_cases3 x y z :=
  destruct x as [[]|[]| |[] ? ?], y as [[]|[]| |[] ? ?], z as [[]|[]| |[] ? ?];
  simpl; intros; try congruence; auto;
  rewrite ?Pos.compare_cont_spec in *; simpl in *;
  cmp_cases; subst; simpl in *; try congruence; auto; try lia.

Lemma SFleb_total (x y : spec_float) :
  x <> S754_nan -> y <> S754_nan -> SFleb x y = true \/ SFleb y x = true.
Proof. unfold SFleb. by_cases3 x y (S754_zero false). Qed.

Lemma SFleb_trans (x y z : spec_float) :
  SFleb x y = true -> SFleb y z = true -> SFleb x z = true.
Proof. unfold SFleb. by_cases3 x y z. Qed.

Lemma SFltb_leb (x y : spec_float) :
  x <> S754_nan -> y <> S754_nan -> SFltb x y = negb (SFleb y x).
Proof. unfold SFleb, SFltb. by_cases3 x y (S754_zero false). Qed.

Lemma SFleb_antisym (x y : spec_float) :
  SFleb x y = true -> SFleb y x = true -> SFeqb x y = true.
Proof. unfold SFleb, SFeqb. by_cases3 x y (S754_zero false). Qed.

Lemma SFeqb_self (x : spec_float) : SFeqb x x = false <-> x = S754_nan.
Proof.
  unfold SFeqb.
  destruct x as [[]|[]| |[] mx ex]; simpl; split; intros; try congruence;
    rewrite ?Pos.compare_cont_spec, ?Z.compare_refl, ?Pos.compare_refl in *;
    simpl in *; congruence.
Qed.

Lemma SFleb_nan_l (x y : spec_float) : SFleb x y = true -> x <> S754_nan.
Proof. unfold SFleb. destruct x; simpl; congruence. Qed.

Lemma SFleb_nan_r (x y : spec_float) : SFleb x y = true -> y <> S754_nan.
Proof. unfold SFleb. destruct x, y; simpl; congruence. Qed.

Lemma is_nan_spec (x : float) :
  PrimFloat.is_nan x = true <-> Prim2SF x = S754_nan.
Proof.
  unfold PrimFloat.is_nan. rewrite FloatAxioms.eqb_spec, negb_true_iff.
  apply SFeqb_self.
Qed.

Lemma not_nan_spec (x : float) :
  PrimFloat.is_nan x = false <-> Prim2SF x <> S754_nan.
Proof.
  rewrite <- is_nan_spec. destruct (PrimFloat.is_nan x); split; congruence.
Qed.

Lemma leb_total (x y : float) :
  PrimFloat.is_nan x = false -> PrimFloat.is_nan y = false ->
  (x <=? y)%float = true \/ (y <=? x)%float = true.
Proof.
  rewrite !not_nan_spec, !leb_spec. apply SFleb_total.
Qed.

Lemma leb_refl (x : float) :
  PrimFloat.is_nan x = false -> (x <=? x)%float = true.
Proof. intros Hx. destruct (leb_total x x Hx Hx); assumption. Qed.

Lemma leb_trans (x y z : float) :
  (x <=? y)%float = true -> (y <=? z)%float = true -> (x <=? z)%float = true.
Proof. rewrite !leb_spec. apply SFleb_trans. Qed.

Lemma leb_not_nan_l (x y : float) :
  (x <=? y)%float = true -> PrimFloat.is_nan x = false.
Proof. rewrite leb_spec, not_nan_spec. apply SFleb_nan_l. Qed.

Lemma leb_not_nan_r (x y : float) :
  (x <=? y)%float = true -> PrimFloat.is_nan y = false.
Proof. rewrite leb_spec, not_nan_spec. apply SFleb_nan_r. Qed.

Lemma ltb_leb (x y : float) :
  PrimFloat.is_nan x = false -> PrimFloat.is_nan y = false ->
  (x <? y)%float = negb (y <=? x)%float.
Proof.
  rewrite !not_nan_spec, ltb_spec, leb_spec. apply SFltb_leb.
Qed.

Lemma leb_antisym (x y : float) :
  (x <=? y)%float = true -> (y <=? x)%float = true -> (x =? y)%float = true.
Proof. rewrite !leb_spec, FloatAxioms.eqb_spec. apply SFleb_antisym. Qed.

(* x < y <= z gives x < z *)
Lemma ltb_leb_trans (x y z : float) :
  PrimFloat.is_nan x = false ->
  (x <? y)%float = true -> (y <=? z)%float = true -> (x <? z)%float = true.
Proof.
  intros Hx Hxy Hyz.
  assert (Hy := leb_not_nan_l _ _ Hyz). assert (Hz := leb_not_nan_r _ _ Hyz).
  rewrite ltb_leb in * by assumption.
  rewrite negb_true_iff in *.
  destruct (z <=? x)%float eqn:Hzx; [|reflexivity].
  rewrite (leb_trans _ _ _ Hyz Hzx) in Hxy. discriminate.
Qed.

Lemma fill_nan_id (v : float) : PrimFloat.is_nan v = false -> fill_nan v = v.
Proof. unfold fill_nan. now intros ->. Qed.

End Binary64.

(** * Facts about binary64 rounding

    [binary_round_aux] is the rounding step shared by the multiplication,
    the subtraction and the square root of the floats' specification. A
    mantissa with [d] binary digits at exponent [e] is rounded to zero or to
    a finite number, and never overflows, when [d + e] is below the largest
    exponent. *)

Section Rounding.

Local Open Scope Z_scope.

Lemma digits2_pos_bounds (p : positive) :
  2 ^ (Z.pos (digits2_pos p) - 1) <= Z.pos p < 2 ^ Z.pos (digits2_pos p).
Proof.
  induction p as [p IH | p IH | ]; simpl digits2_pos.
  - rewrite Pos2Z.inj_succ, Z.pow_succ_r by lia.
    replace (Z.succ (Z.pos (digits2_pos p)) - 1) with (Z.succ (Z.pos (digits2_pos p) - 1)) by lia.
    rewrite Z.pow_succ_r by lia. lia.
  - rewrite Pos2Z.inj_succ, Z.pow_succ_r by lia.
    replace (Z.succ (Z.pos (digits2_pos p)) - 1) with (Z.succ (Z.pos (digits2_pos p) - 1)) by lia.
    rewrite Z.pow_succ_r by lia. lia.
  - simpl. lia.
Qed.

Lemma Zdigits2_nonneg (m : Z) : 0 <= Zdigits2 m.
Proof. destruct m; simpl; lia. Qed.

(* m < 2^k bounds the number of digits *)
Lemma Zdigits2_le (m k : Z) : 0 <= m -> 0 <= k -> m < 2 ^ k -> Zdigits2 m <= k.
Proof.
  intros Hm Hk Hlt. destruct m as [|p|p]; simpl; try lia.
  destruct (digits2_pos_bounds p) as [Hlo _].
  destruct (Z.le_gt_cases (Z.pos (digits2_pos p)) k) as [|Hgt]; [assumption|].
  assert (2 ^ k <= 2 ^ (Z.pos (digits2_pos p) - 1)) by (apply Z.pow_le_mono_r; lia).
  lia.
Qed.

Lemma Zdigits2_lt_pow (m : Z) : 0 <= m -> m < 2 ^ Zdigits2 m.
Proof.
  intros Hm. destruct m as [|p|p]; simpl; try lia.
  apply digits2_pos_bounds.
Qed.

Lemma shr_1_div2 (mrs : shr_record) :
  0 <= shr_m mrs -> shr_m (shr_1 mrs) = shr_m mrs / 2.
Proof.
  destruct mrs as [m r s]. simpl. intros Hm.
  destruct m as [|[p|p|]|p]; simpl; try lia; try reflexivity.
  - rewrite Pos2Z.inj_xI. apply (Z.div_unique _ _ _ 1); lia.
  - rewrite Pos2Z.inj_xO. apply (Z.div_unique _ _ _ 0); lia.
Qed.

Lemma iter_shr_1_div (p : positive) (mrs : shr_record) :
  0 <= shr_m mrs ->
  shr_m (SpecFloat.iter_pos shr_1 p mrs) = shr_m mrs / 2 ^ Z.pos p.
Proof.
  revert mrs. induction p as [p IH | p IH | ]; intros mrs Hm; simpl SpecFloat.iter_pos.
  - assert (H1 : 0 <= shr_m (shr_1 mrs)).
    { rewrite shr_1_div2 by assumption. apply Z.div_pos; lia. }
    assert (H2 : 0 <= shr_m (SpecFloat.iter_pos shr_1 p (shr_1 mrs))).
    { rewrite IH by assumption. apply Z.div_pos; [assumption|]. apply Z.pow_pos_nonneg; lia. }
    rewrite IH, IH, shr_1_div2 by assumption.
    rewrite !Z.div_div by (try apply Z.pow_pos_nonneg; lia).
    f_equal. change (Z.pos p~1) with (2 * Z.pos p + 1).
    replace (2 * Z.pos p + 1) with (1 + Z.pos p + Z.pos p) by lia.
    rewrite !Z.pow_add_r by lia. lia.
  - assert (H2 : 0 <= shr_m (SpecFloat.iter_pos shr_1 p mrs)).
    { rewrite IH by assumption. apply Z.div_pos; [assumption|]. apply Z.pow_pos_nonneg; lia. }
    rewrite IH, IH by assumption.
    rewrite !Z.div_div by (try apply Z.pow_pos_nonneg; lia).
    f_equal. change (Z.pos p~0) with (2 * Z.pos p).
    replace (2 * Z.pos p) with (Z.pos p + Z.pos p) by lia.
    rewrite !Z.pow_add_r by lia. lia.
  - rewrite shr_1_div2 by assumption. reflexivity.
Qed.

Lemma shr_record_of_loc_m (m : Z) (l : location) : shr_m (shr_record_of_loc m l) = m.
Proof. destruct l as [|[]]; reflexivity. Qed.

(* one call of shr_fexp: the new mantissa is not negative and, with the new
   exponent, it does not reach higher than before *)
Lemma shr_fexp_bounds (m e : Z) (l : location) :
  0 <= m -> e <= 971 -> Zdigits2 m + e <= 1024 ->
  let '(mrs, e') := shr_fexp prec emax m e l in
  0 <= shr_m mrs /\ e' <= 971 /\ Zdigits2 (shr_m mrs) + e' <= Z.max 971 (Zdigits2 m + e)
  /\ Zdigits2 (shr_m mrs) + e' <= 1024 .
Proof.
  intros Hm He Hd. unfold shr_fexp, shr.
  set (d := Zdigits2 m) in *.
  assert (Hd0 : 0 <= d) by apply Zdigits2_nonneg.
  destruct (fexp prec emax (d + e) - e) as [|p|p] eqn:En.
  - rewrite shr_record_of_loc_m. fold d. lia.
  - assert (Hfe : fexp prec emax (d + e) = e + Z.pos p) by lia.
    unfold fexp, emin, prec, emax in Hfe.
    rewrite iter_shr_1_div by (rewrite shr_record_of_loc_m; assumption).
    rewrite shr_record_of_loc_m.
    assert (Hpow : 0 < 2 ^ Z.pos p) by (apply Z.pow_pos_nonneg; lia).
    assert (Hq : 0 <= m / 2 ^ Z.pos p) by (apply Z.div_pos; lia).
    split; [assumption|]. split; [lia|].
    assert (Hdig : Zdigits2 (m / 2 ^ Z.pos p) <= Z.max 0 (d - Z.pos p)).
    { apply Zdigits2_le; [assumption | lia |].
      assert (Hmd := Zdigits2_lt_pow m Hm). fold d in Hmd.
      apply Z.div_lt_upper_bound; [assumption|].
      destruct (Z.le_gt_cases (Z.pos p) d) as [Hle | Hgt].
      - rewrite Z.max_r by lia. rewrite <- Z.pow_add_r by lia.
        replace (Z.pos p + (d - Z.pos p)) with d by lia. assumption.
      - rewrite Z.max_l by lia. simpl (2 ^ 0). 
        assert (2 ^ d <= 2 ^ Z.pos p) by (apply Z.pow_le_mono_r; lia). lia. }
    lia.
  - rewrite shr_record_of_loc_m. fold d. lia.
Qed.

Lemma round_nearest_even_bounds (m : Z) (l : location) :
  m <= round_nearest_even m l <= m + 1.
Proof.
  destruct l as [|[]]; simpl; try lia. destruct (Z.even m); lia.
Qed.

Lemma Zdigits2_step (m m' : Z) :
  0 <= m -> m <= m' <= m + 1 -> Zdigits2 m' <= Zdigits2 m + 1.
Proof.
  intros Hm Hm'. assert (Hd := Zdigits2_nonneg m).
  apply Zdigits2_le; try lia.
  assert (Hlt := Zdigits2_lt_pow m Hm).
  rewrite Z.pow_add_r by lia. simpl (2 ^ 1). lia.
Qed.

(* rounding a mantissa that sits low enough gives zero or a finite number *)
Lemma binary_round_aux_finite (s : bool) (m e : Z) (l : location) :
  0 <= m -> e <= 971 -> Zdigits2 m + e <= 1023 ->
  binary_round_aux prec emax s m e l = S754_zero s \/
  exists m' e', binary_round_aux prec emax s m e l = S754_finite s m' e'.
Proof.
  intros Hm He Hd. unfold binary_round_aux.
  assert (H1 := shr_fexp_bounds m e l Hm He ltac:(lia)).
  destruct (shr_fexp prec emax m e l) as [mrs1 e1].
  destruct H1 as (Hm1 & He1 & Hd1 & _).
  set (m2 := round_nearest_even (shr_m mrs1) (loc_of_shr_record mrs1)).
  assert (Hb := round_nearest_even_bounds (shr_m mrs1) (loc_of_shr_record mrs1)).
  fold m2 in Hb.
  assert (Hd2 := Zdigits2_step (shr_m mrs1) m2 Hm1 Hb).
  assert (H2 := shr_fexp_bounds m2 e1 loc_Exact ltac:(lia) He1 ltac:(lia)).
  destruct (shr_fexp prec emax m2 e1 loc_Exact) as [mrs2 e2].
  destruct H2 as (Hm2 & He2 & _).
  destruct (shr_m mrs2) as [|p|p]; [now left | | lia].
  right. unfold emax, prec.
  destruct (Z.leb_spec e2 (1024 - 53)); [eauto | lia].
Qed.

Lemma valid_finite_bounds (s : bool) (m : positive) (e : Z) :
  valid_binary (S754_finite s m e) = true ->
  Z.pos (digits2_pos m) <= 53 /\ e <= 971.
Proof.
  simpl. unfold bounded, canonical_mantissa, fexp, emin, emax, prec.
  rewrite andb_true_iff, Z.eqb_eq, Z.leb_le. lia.
Qed.

Lemma SFmul_finite (sx sy : bool) (mx my : positive) (ex ey : Z) :
  Z.pos (digits2_pos mx) + ex + (Z.pos (digits2_pos my) + ey) <= 1023 ->
  ex + ey <= 971 ->
  SF64mul (S754_finite sx mx ex) (S754_finite sy my ey) = S754_zero (xorb sx sy) \/
  exists m e,
    SF64mul (S754_finite sx mx ex) (S754_finite sy my ey)
    = S754_finite (xorb sx sy) m e.
Proof.
  intros Hd He. unfold SF64mul, SFmul.
  apply binary_round_aux_finite; [lia | assumption |].
  assert (Hx := digits2_pos_bounds mx). assert (Hy := digits2_pos_bounds my).
  assert (Hdig : Zdigits2 (Z.pos (mx * my))
                 <= Z.pos (digits2_pos mx) + Z.pos (digits2_pos my)).
  { apply Zdigits2_le; try lia.
    rewrite Z.pow_add_r, Pos2Z.inj_mul by lia. nia. }
  lia.
Qed.

Lemma shr_fexp_nonneg (m e : Z) (l : location) :
  0 <= m -> 0 <= shr_m (fst (shr_fexp prec emax m e l)).
Proof.
  intros Hm. unfold shr_fexp, shr.
  destruct (fexp prec emax (Zdigits2 m + e) - e) as [|p|p]; simpl fst;
    rewrite ?iter_shr_1_div, ?shr_record_of_loc_m;
    rewrite ?shr_record_of_loc_m; try assumption.
  apply Z.div_pos; [assumption|]. apply Z.pow_pos_nonneg; lia.
Qed.

(* rounding keeps the sign: the result is never NaN *)
Lemma binary_round_aux_sign (s : bool) (m e : Z) (l : location) :
  0 <= m ->
  binary_round_aux prec emax s m e l = S754_zero s \/
  (exists m' e', binary_round_aux prec emax s m e l = S754_finite s m' e') \/
  binary_round_aux prec emax s m e l = S754_infinity s.
Proof.
  intros Hm. unfold binary_round_aux.
  assert (H1 := shr_fexp_nonneg m e l Hm).
  destruct (shr_fexp prec emax m e l) as [mrs1 e1]. simpl fst in H1.
  assert (Hb := round_nearest_even_bounds (shr_m mrs1) (loc_of_shr_record mrs1)).
  assert (H2 := shr_fexp_nonneg
                  (round_nearest_even (shr_m mrs1) (loc_of_shr_record mrs1))
                  e1 loc_Exact ltac:(lia)).
  destruct (shr_fexp prec emax _ e1 loc_Exact) as [mrs2 e2]. simpl fst in H2.
  destruct (shr_m mrs2) as [|p|p]; [now left | | lia].
  right. destruct (e2 <=? emax - prec); [left; eauto | now right].
Qed.

End Rounding.

(** * The winner selector *)

Section Winner.

Context `{Platform}.

Lemma nth_error_snoc_last {A : Type} (pre : list A) (v : A) :
  nth_error (pre ++ [v]) (List.length pre) = Some v.
Proof. rewrite nth_error_app2, Nat.sub_diag by lia. reflexivity. Qed.

Lemma nth_error_snoc_cases {A : Type} (pre : list A) (v w : A) (k : nat) :
  nth_error (pre ++ [v]) k = Some w ->
  (k < List.length pre /\ nth_error pre k = Some w) \/ (k = List.length pre /\ w = v).
Proof.
  intros Hk. destruct (Nat.lt_ge_cases k (List.length pre)) as [Hlt | Hge].
  - left. split; [assumption|]. now rewrite nth_error_app1 in Hk.
  - right. rewrite nth_error_app2 in Hk by assumption.
    destruct (k - List.length pre) as [|n] eqn:E; simpl in Hk.
    + split; [lia | congruence].
    + destruct n; discriminate.
Qed.

(* the loop invariant of argmin: [mp] sits at [best], is least in the part
   already read, and is strictly below everything before [best] *)
Lemma argmin_from_first_minimum (vs pre : list float) (best : nat) (mp : float) :
  Forall (fun v => PrimFloat.is_nan v = false) (pre ++ vs) ->
  nth_error pre best = Some mp ->
  (forall k w, nth_error pre k = Some w -> (mp <=? w)%float = true) ->
  (forall k w, k < best -> nth_error pre k = Some w -> (mp <? w)%float = true) ->
  first_minimum (pre ++ vs) (argmin_from best mp (List.length pre) vs).
Proof.
  revert pre best mp.
  induction vs as [|v vs IH]; intros pre best mp Hnan Hbest Hle Hlt; simpl.
  - rewrite app_nil_r. exists mp. auto.
  - assert (Hv : PrimFloat.is_nan v = false).
    { rewrite Forall_forall in Hnan. apply Hnan, in_elt. }
    assert (Hmp : PrimFloat.is_nan mp = false).
    { rewrite Forall_forall in Hnan. apply Hnan, in_or_app. left.
      eapply nth_error_In; eassumption. }
    replace (pre ++ v :: vs) with ((pre ++ [v]) ++ vs) in *
      by (rewrite <- app_assoc; reflexivity).
    replace (S (List.length pre)) with (List.length (pre ++ [v]))
      by (rewrite length_app; simpl; lia).
    destruct (mp <=? v)%float eqn:Hcmp; simpl.
    + apply IH; auto.
      * rewrite nth_error_app1; [assumption|].
        apply nth_error_Some. congruence.
      * intros k w Hk. apply nth_error_snoc_cases in Hk.
        destruct Hk as [[_ Hk] | [_ ->]]; eauto.
      * intros k w Hkb Hk. apply nth_error_snoc_cases in Hk.
        destruct Hk as [[_ Hk] | [-> _]]; eauto.
        assert (best < List.length pre) by (apply nth_error_Some; congruence). lia.
    + assert (Hvmp : (v <? mp)%float = true).
      { rewrite ltb_leb by assumption. now rewrite Hcmp. }
      apply IH; auto.
      * apply nth_error_snoc_last.
      * intros k w Hk. apply nth_error_snoc_cases in Hk.
        destruct Hk as [[_ Hk] | [_ ->]].
        -- assert (Hvw : (v <? w)%float = true)
             by (eapply ltb_leb_trans; eauto).
           assert (Hw := leb_not_nan_r _ _ (Hle _ _ Hk)).
           rewrite ltb_leb in Hvw by assumption.
           destruct (leb_total v w Hv Hw) as [H1 | H1]; [assumption|].
           rewrite H1 in Hvw. discriminate.
        -- now apply leb_refl.
      * intros k w Hkb Hk. apply nth_error_snoc_cases in Hk.
        destruct Hk as [[_ Hk] | [-> _]]; [|lia].
        eapply ltb_leb_trans; eauto.
Qed.

Lemma argmin_first_minimum (vs : list float) :
  vs <> [] -> Forall (fun v => PrimFloat.is_nan v = false) vs ->
  exists j, argmin vs = Ok j /\ first_minimum vs j.
Proof.
  destruct vs as [|v vs]; [congruence|]. intros _ Hnan.
  exists (argmin_from 0 v 1 vs). split; [reflexivity|].
  assert (Hv : PrimFloat.is_nan v = false) by now inversion Hnan.
  apply (argmin_from_first_minimum vs [v] 0 v); auto.
  - intros [|[|k]] w Hk; simpl in Hk; try discriminate.
    injection Hk as <-. now apply leb_refl.
  - intros k w Hk. lia.
Qed.

Lemma label_eqb_eq (a b : label) : label_eqb a b = true <-> a = b.
Proof.
  destruct a, b; simpl; try (split; congruence).
  - rewrite Nat.eqb_eq. split; congruence.
  - rewrite String.eqb_eq. split; congruence.
Qed.

Lemma filter_unique_label (df : frame) (i : nat) (r : label * participant) :
  NoDup (List.map (@fst _ _) df) -> nth_error df i = Some r ->
  filter (fun x => label_eqb (fst x) (fst r)) df = [r].
Proof.
  revert i. induction df as [|x df IH]; intros i Hnd Hi.
  - destruct i; discriminate.
  - simpl in Hnd. inversion Hnd as [|? ? Hnotin Hnd']; subst.
    assert (Hnone : forall l, ~ In l (List.map (@fst _ _) df) ->
              filter (fun y => label_eqb (fst y) l) df = []).
    { intros l Hl. clear - Hl. induction df as [|y df IH]; [reflexivity|].
      simpl in *. destruct (label_eqb (fst y) l) eqn:E.
      - apply label_eqb_eq in E. tauto.
      - apply IH. tauto. }
    destruct i as [|i]; simpl in Hi.
    + injection Hi as ->. simpl.
      replace (label_eqb (fst r) (fst r)) with true
        by (symmetry; now apply label_eqb_eq).
      now rewrite Hnone.
    + simpl. destruct (label_eqb (fst x) (fst r)) eqn:E.
      * apply label_eqb_eq in E. exfalso. apply Hnotin. rewrite E.
        apply in_map. eapply nth_error_In; eassumption.
      * eapply IH; eassumption.
Qed.

Lemma populated_fill (df : frame) :
  populated df ->
  List.map (fun r => fill_nan (dist r)) df = List.map dist df.
Proof.
  intros Hp. apply map_ext_in. intros r Hr. apply fill_nan_id.
  unfold populated in Hp. rewrite Forall_forall in Hp. now apply Hp.
Qed.

Lemma populated_not_all_nan (df : frame) :
  df <> [] -> populated df ->
  forallb (fun r => PrimFloat.is_nan (dist r)) df = false.
Proof.
  destruct df as [|r df]; [congruence|]. intros _ Hp. inversion Hp; subst.
  simpl. now replace (PrimFloat.is_nan (dist r)) with false.
Qed.

Lemma loc_rows (df : frame) (r : label * participant) :
  In r df ->
  exists sel,
    loc df (Some (fst r)) = Ok sel /\
    selection_rows sel = filter (fun x => label_eqb (fst x) (fst r)) df.
Proof.
  intros Hin. unfold loc.
  assert (Hf : In r (filter (fun x => label_eqb (fst x) (fst r)) df)).
  { apply filter_In. split; [assumption | now apply label_eqb_eq]. }
  destruct (filter _ df) as [|a [|b rs]]; [contradiction | |]; eexists;
    split; reflexivity.
Qed.

(* two rows that pass a test leave at least two rows in the filter *)
Lemma filter_two {A : Type} (p : A -> bool) (l : list A) (i k : nat) (a b : A) :
  i <> k -> nth_error l i = Some a -> nth_error l k = Some b ->
  p a = true -> p b = true -> 2 <= List.length (filter p l).
Proof.
  assert (Hone : forall (l : list A) n x,
             nth_error l n = Some x -> p x = true ->
             1 <= List.length (filter p l)).
  { intros l0 n x Hn Hx.
    assert (Hin : In x (filter p l0)).
    { apply filter_In. split; [eapply nth_error_In; eassumption | exact Hx]. }
    destruct (filter p l0); [contradiction | simpl; lia]. }
  revert i k. induction l as [|x l IH]; intros i k Hik Hi Hk Ha Hb.
  - destruct i; discriminate.
  - destruct i as [|i], k as [|k]; simpl in Hi, Hk; [congruence | | |].
    + injection Hi as ->. simpl. rewrite Ha. simpl.
      pose proof (Hone l k b Hk Hb). lia.
    + injection Hk as ->. simpl. rewrite Hb. simpl.
      pose proof (Hone l i a Hi Ha). lia.
    + simpl. assert (Hik' : i <> k) by congruence.
      pose proof (IH i k Hik' Hi Hk Ha Hb).
      destruct (p x); simpl; lia.
Qed.

(* what .loc answers at the label of a row of the frame: the rows under that
   label, as one record when the labels are distinct, as several rows when
   another row carries the label *)
Lemma loc_selection (df : frame) (i : nat) (r : label * participant) :
  nth_error df i = Some r ->
  exists sel,
    loc df (Some (fst r)) = Ok sel /\
    selection_rows sel = filter (fun x => label_eqb (fst x) (fst r)) df /\
    (NoDup (List.map (@fst _ _) df) -> sel = Row r) /\
    (forall k r', k <> i -> nth_error df k = Some r' -> fst r' = fst r ->
                  exists rs, sel = Rows rs /\ 2 <= List.length rs).
Proof.
  intros Hr.
  destruct (loc_rows df r (nth_error_In _ _ Hr)) as (sel & Hloc & Hrows).
  exists sel. split; [exact Hloc|]. split; [exact Hrows|]. split.
  - intros Hnd. unfold loc in Hloc.
    rewrite (filter_unique_label df i r Hnd Hr) in Hloc. congruence.
  - intros k r' Hk Hr' Hlabel.
    assert (Hlen : 2 <= List.length (filter (fun x => label_eqb (fst x) (fst r)) df)).
    { apply (filter_two _ df k i r' r Hk Hr' Hr); now apply label_eqb_eq. }
    unfold loc in Hloc.
    destruct (filter (fun x => label_eqb (fst x) (fst r)) df) as [|a [|b rs]];
      simpl in Hlen; [lia | lia |].
    injection Hloc as <-. eexists. split; [reflexivity | simpl; lia].
Qed.


(* idxmin and .loc on a frame whose distances are all numbers and whose
   labels are distinct *)
Lemma draw_winner_row (df : frame) :
  df <> [] -> NoDup (List.map (@fst _ _) df) -> populated df ->
  exists i r,
    nth_error df i = Some r /\
    draw_winner df = Ok (Row r) /\
    first_minimum (List.map dist df) i.
Proof.
  intros Hne Hnd Hp.
  destruct (argmin_first_minimum (List.map dist df)) as (j & Hj & Hmin).
  { destruct df; [congruence | discriminate]. }
  { unfold populated in Hp. rewrite Forall_map. exact Hp. }
  destruct Hmin as (v & Hv & Hmin).
  destruct (nth_error df j) as [r|] eqn:Hr.
  2:{ rewrite nth_error_map, Hr in Hv. discriminate. }
  exists j, r. split; [exact Hr|]. split.
  - unfold draw_winner, idxmin.
    rewrite populated_fill, Hj by assumption. simpl.
    rewrite populated_not_all_nan, Hr by assumption. simpl.
    unfold loc. now rewrite (filter_unique_label df j r Hnd Hr).
  - exists v. auto.
Qed.

End Winner.


(** * The leaderboard *)

Section Leaderboard.

Lemma le_km_trans (a b c : label * participant) :
  le_km a b -> le_km b c -> le_km a c.
Proof. unfold le_km. apply leb_trans. Qed.

Lemma has_distance_true (r : label * participant) :
  has_distance r = true <-> PrimFloat.is_nan (dist r) = false.
Proof. unfold has_distance. apply negb_true_iff. Qed.

Lemma populated_filter (df : frame) :
  populated df ->
  filter has_distance df = df /\
  filter (fun r => negb (has_distance r)) df = [].
Proof.
  induction 1 as [|r df Hr _ [IH1 IH2]]; [split; reflexivity|].
  simpl. apply has_distance_true in Hr. rewrite Hr. simpl.
  now rewrite IH1, IH2.
Qed.

Lemma filter_has_distance_populated (df : frame) :
  populated (filter has_distance df).
Proof.
  unfold populated. rewrite Forall_forall. intros r Hr.
  apply filter_In in Hr. now apply has_distance_true.
Qed.

Lemma insert_by_distance_perm (r : label * participant) (s : frame) :
  Permutation (r :: s) (insert_by_distance r s).
Proof.
  induction s as [|x s IH]; simpl; [reflexivity|].
  destruct (dist r <=? dist x)%float; [reflexivity|].
  rewrite perm_swap. now apply perm_skip.
Qed.

Lemma insert_by_distance_hd (r x : label * participant) (s : frame) :
  le_km x r -> HdRel le_km x s -> HdRel le_km x (insert_by_distance r s).
Proof.
  intros Hxr Hhd. destruct s as [|y s]; simpl.
  - now constructor.
  - inversion Hhd; subst. destruct (dist r <=? dist y)%float; now constructor.
Qed.

Lemma insert_by_distance_sorted (r : label * participant) (s : frame) :
  PrimFloat.is_nan (dist r) = false -> populated s ->
  Sorted le_km s -> Sorted le_km (insert_by_distance r s).
Proof.
  intros Hr Hp Hs. induction Hs as [|x s Hs IH Hhd]; simpl.
  - repeat constructor.
  - inversion Hp as [|? ? Hx Hp']; subst.
    destruct (dist r <=? dist x)%float eqn:E.
    + constructor; [now constructor | now constructor].
    + constructor; [now apply IH|].
      apply insert_by_distance_hd; [|assumption].
      destruct (leb_total (dist r) (dist x) Hr Hx) as [H1 | H1];
        [congruence | exact H1].
Qed.

Lemma insertion_sort_sorted (s : frame) :
  populated s ->
  Permutation s (fold_right insert_by_distance [] s) /\
  Sorted le_km (fold_right insert_by_distance [] s).
Proof.
  induction 1 as [|r s Hr Hp [IHp IHs]]; simpl.
  - split; constructor.
  - split.
    + rewrite <- insert_by_distance_perm. now apply perm_skip.
    + apply insert_by_distance_sorted; auto.
      unfold populated in *. rewrite Forall_forall in *.
      intros x Hx. apply Hp. eapply Permutation_in; [symmetry|]; eassumption.
Qed.

(* the stable ranking is one of the results sort_values may give *)
Lemma spec_stable_sort_allowed (df : frame) :
  sort_values df (spec_stable_sort df).
Proof.
  exists (fold_right insert_by_distance [] (filter has_distance df)).
  destruct (insertion_sort_sorted (filter has_distance df)
              (filter_has_distance_populated df)) as [Hp Hs].
  repeat split; assumption.
Qed.

Lemma filter_partition_perm {A : Type} (f : A -> bool) (l : list A) :
  Permutation l (filter f l ++ filter (fun x => negb (f x)) l).
Proof.
  induction l as [|x l IH]; simpl; [reflexivity|].
  destruct (f x); simpl.
  - now apply perm_skip.
  - rewrite <- Permutation_middle. now apply perm_skip.
Qed.

Lemma sort_values_perm (df closest : frame) :
  sort_values df closest -> Permutation df closest.
Proof.
  intros (s & Hp & _ & ->).
  rewrite (filter_partition_perm has_distance df) at 1.
  now apply Permutation_app_tail.
Qed.

Lemma map_snd_reset_index (f : frame) :
  List.map (@snd _ _) (reset_index f) = List.map (@snd _ _) f.
Proof.
  unfold reset_index.
  generalize 0. induction f as [|r f IH]; intros n; simpl; [reflexivity|].
  now rewrite IH.
Qed.

Lemma head10_reset_index (f : frame) :
  head10 (reset_index f) =
  firstn 10 (List.map (fun r => (name (snd r), distance_km (snd r))) f).
Proof.
  assert (H : forall l : frame,
             List.map (fun r => (name (snd r), distance_km (snd r))) l =
             List.map (fun p => (name p, distance_km p)) (List.map (@snd _ _) l))
    by (intros l; now rewrite map_map).
  unfold head10. now rewrite !H, map_snd_reset_index.
Qed.

Lemma in_firstn {A : Type} (n : nat) (l : list A) (x : A) :
  In x (firstn n l) -> In x l.
Proof.
  intros Hx. rewrite <- (firstn_skipn n l). apply in_or_app. now left.
Qed.

Lemma sorted_nth_le (s : frame) (i j : nat) (x y : label * participant) :
  Sorted le_km s -> i <= j ->
  nth_error s i = Some x -> nth_error s j = Some y ->
  PrimFloat.is_nan (dist y) = false -> le_km x y.
Proof.
  intros Hs. apply Sorted_StronglySorted in Hs; [|exact le_km_trans].
  revert i j. induction Hs as [|a s Hs IH Hall]; intros i j Hij Hi Hj Hy.
  - destruct i; discriminate.
  - destruct i as [|i], j as [|j]; simpl in *; try lia.
    + injection Hi as <-. injection Hj as <-. now apply leb_refl.
    + injection Hi as <-. rewrite Forall_forall in Hall. apply Hall.
      eapply nth_error_In; eassumption.
    + apply (IH i j); auto. lia.
Qed.

Lemma ltb_not_nan_l (x y : float) :
  (x <? y)%float = true -> PrimFloat.is_nan x = false.
Proof.
  rewrite ltb_spec, not_nan_spec. unfold SFltb.
  destruct (Prim2SF x); simpl; congruence.
Qed.

Lemma ltb_not_nan_r (x y : float) :
  (x <? y)%float = true -> PrimFloat.is_nan y = false.
Proof.
  rewrite ltb_spec, not_nan_spec. unfold SFltb.
  destruct (Prim2SF x), (Prim2SF y); simpl; congruence.
Qed.

(* in a result of sort_values, a row is at most every later row that has a
   distance *)
Lemma sort_values_ascending (df closest : frame) (i j : nat)
  (x y : label * participant) :
  sort_values df closest -> i <= j ->
  nth_error closest i = Some x -> nth_error closest j = Some y ->
  PrimFloat.is_nan (dist y) = false -> le_km x y.
Proof.
  intros (s & _ & Hs & ->) Hij Hx Hy Hyn.
  assert (Hjs : j < List.length s).
  { destruct (Nat.lt_ge_cases j (List.length s)) as [H'|H']; [assumption|].
    rewrite nth_error_app2 in Hy by assumption.
    apply nth_error_In, filter_In in Hy. destruct Hy as [_ Hy].
    unfold has_distance in Hy. rewrite Hyn in Hy. discriminate. }
  rewrite nth_error_app1 in Hx, Hy by lia.
  exact (sorted_nth_le s i j x y Hs Hij Hx Hy Hyn).
Qed.

(* in a result of sort_values, the rows without a distance come last *)
Lemma sort_values_nan_last (df closest : frame) (i j : nat)
  (x y : label * participant) :
  sort_values df closest -> i <= j ->
  nth_error closest i = Some x -> nth_error closest j = Some y ->
  PrimFloat.is_nan (dist x) = true -> PrimFloat.is_nan (dist y) = true.
Proof.
  intros (s & Hp & _ & ->) Hij Hx Hy Hxn.
  assert (His : List.length s <= i).
  { destruct (Nat.lt_ge_cases i (List.length s)) as [H'|H']; [|assumption].
    rewrite nth_error_app1 in Hx by assumption.
    apply nth_error_In in Hx.
    apply (Permutation_in _ (Permutation_sym Hp)), filter_In in Hx.
    destruct Hx as [_ Hx]. unfold has_distance in Hx. rewrite Hxn in Hx.
    discriminate. }
  rewrite nth_error_app2 in Hy by lia.
  apply nth_error_In, filter_In in Hy. destruct Hy as [_ Hy].
  unfold has_distance in Hy. now apply negb_true_iff, negb_false_iff in Hy.
Qed.

(* the example of eighteen: what numpy's generic quicksort returns *)
Lemma crowd_quicksorted : sort_values_aquicksort crowd_frame = Some crowd_closest.
Proof. vm_compute. reflexivity. Qed.

(* ... and it is one of the results the contract of sort_values allows *)
Lemma crowd_admitted : sort_values crowd_frame crowd_closest.
Proof.
  exists crowd_closest. split; [|split].
  - change (filter has_distance crowd_frame) with crowd_frame.
    apply NoDup_Permutation.
    + unfold crowd_frame. repeat constructor; simpl; intuition discriminate.
    + unfold crowd_closest. repeat constructor; simpl; intuition discriminate.
    + intros x. unfold crowd_frame, crowd_closest. simpl. tauto.
  - unfold crowd_closest. repeat constructor.
  - reflexivity.
Qed.

End Leaderboard.

(** C5 (as amended). Whatever order sort_values settles on, the leaderboard
    is the first ten rows, as name and distance, of the participants sorted
    ascending by distance with the rows without a distance last: it is cut
    from a rearrangement [closest] of the participants in which a row is at
    most every later row that has a distance and no row with a distance
    follows a row without one.  It has min(10, n) rows, every row is a
    participant's, distances ascend, and a participant strictly closer than
    a row shown is shown as well.  The stable ranking of the specification
    is one admissible leaderboard; the order among equal distances is not
    fixed. *)
Theorem leaderboard_ascending (df : frame) (board : list (cell * float)) :
  leaderboard df board ->
  (exists closest,
     Permutation df closest /\
     (forall i j x y, i <= j ->
        nth_error closest i = Some x -> nth_error closest j = Some y ->
        PrimFloat.is_nan (dist y) = false -> (dist x <=? dist y)%float = true) /\
     (forall i j x y, i <= j ->
        nth_error closest i = Some x -> nth_error closest j = Some y ->
        PrimFloat.is_nan (dist x) = true -> PrimFloat.is_nan (dist y) = true) /\
     board = firstn 10 (List.map (fun r => (name (snd r), distance_km (snd r)))
                                 closest)) /\
  List.length board = Nat.min 10 (List.length df) /\
  (forall x, In x board ->
     exists r, In r df /\ x = (name (snd r), distance_km (snd r))) /\
  (forall i j x y, i <= j ->
     nth_error board i = Some x -> nth_error board j = Some y ->
     PrimFloat.is_nan (snd y) = false -> (snd x <=? snd y)%float = true) /\
  (forall r x, In r df -> In x board -> (dist r <? snd x)%float = true ->
     In (name (snd r), distance_km (snd r)) board) /\
  leaderboard df (spec_leaderboard df).
Proof.
  intros (closest & Hsort & ->). rewrite head10_reset_index.
  assert (Hperm := sort_values_perm df closest Hsort).
  set (proj := fun r : label * participant => (name (snd r), distance_km (snd r))).
  assert (Hnth : forall k e, nth_error (firstn 10 (List.map proj closest)) k = Some e ->
            k < 10 /\ exists r, nth_error closest k = Some r /\ e = proj r).
  { intros k e Hk. rewrite nth_error_firstn in Hk.
    destruct (Nat.ltb_spec k 10); [|discriminate]. split; [assumption|].
    rewrite nth_error_map in Hk.
    destruct (nth_error closest k) as [r|]; [|discriminate].
    injection Hk as <-. now exists r. }
  split; [|split; [|split; [|split; [|split]]]].
  - exists closest. split; [exact Hperm|]. split; [|split; [|reflexivity]].
    + intros i j x y Hij Hx Hy Hn.
      exact (sort_values_ascending df closest i j x y Hsort Hij Hx Hy Hn).
    + intros i j x y Hij Hx Hy Hn.
      exact (sort_values_nan_last df closest i j x y Hsort Hij Hx Hy Hn).
  - rewrite length_firstn, length_map.
    now rewrite (Permutation_length Hperm).
  - intros x Hx. apply in_firstn in Hx. apply in_map_iff in Hx.
    destruct Hx as (r & <- & Hr). exists r. split; [|reflexivity].
    eapply Permutation_in; [symmetry|]; eassumption.
  - intros i j x y Hij Hi Hj Hy.
    apply Hnth in Hi, Hj.
    destruct Hi as (_ & rx & Hrx & ->), Hj as (_ & ry & Hry & ->). simpl in *.
    exact (sort_values_ascending df closest i j rx ry Hsort Hij Hrx Hry Hy).
  - intros r x Hr Hx Hlt.
    apply (Permutation_in _ Hperm), In_nth_error in Hr. destruct Hr as [k Hk].
    apply In_nth_error in Hx. destruct Hx as [i Hi].
    apply Hnth in Hi. destruct Hi as (Hi10 & rx & Hrx & ->). simpl in Hlt.
    destruct (Nat.lt_ge_cases k 10) as [Hk10 | Hk10].
    + apply (nth_error_In _ k). rewrite nth_error_firstn.
      destruct (Nat.ltb_spec k 10); [|lia].
      now rewrite nth_error_map, Hk.
    + exfalso.
      assert (Hrn := ltb_not_nan_l _ _ Hlt).
      assert (Hxn := ltb_not_nan_r _ _ Hlt).
      assert (Hle : le_km rx r).
      { apply (sort_values_ascending df closest i k rx r Hsort); auto. lia. }
      unfold le_km, dist in *. rewrite ltb_leb in Hlt by assumption.
      rewrite Hle in Hlt. discriminate.
  - exists (spec_stable_sort df). split; [apply spec_stable_sort_allowed | reflexivity].
Qed.



(* another ascending order of the example: C before B *)
Lemma abcd_sorted_c_first :
  sort_values abcd_frame
    [entrant 2 "C" 1; entrant 1 "B" 1; entrant 3 "D" 2; entrant 0 "A" 3]%float.
Proof.
  exists [entrant 2 "C" 1; entrant 1 "B" 1; entrant 3 "D" 2; entrant 0 "A" 3]%float.
  split; [|split].
  - change (filter has_distance abcd_frame) with abcd_frame. unfold abcd_frame.
    apply (Permutation_cons_app
             [entrant 2 "C" 1; entrant 1 "B" 1; entrant 3 "D" 2]%float []).
    simpl. apply perm_swap.
  - repeat constructor.
  - reflexivity.
Qed.

Lemma abcd_board_c_first :
  leaderboard abcd_frame
    [(Text "C", 1); (Text "B", 1); (Text "D", 2); (Text "A", 3)]%float.
Proof.
  eexists. split; [apply abcd_sorted_c_first | reflexivity].
Qed.

(** C5, counterexample. Eighteen participants a .. r, where b and i are
    tied for the closest and all the others are tied behind them.  numpy's
    generic quicksort partitions once and returns i, b, p, o, n, ...: the
    leaderboard shows i before b, and p before a, where the stable ranking
    shows b, i, a, c, ...  (The four rows of the claim's own example are few
    enough to be sorted by insertion, and come out as B, C, D, A.) *)
Lemma leaderboard_ties_unordered :
  sort_values_aquicksort crowd_frame = Some crowd_closest /\
  leaderboard crowd_frame (head10 (reset_index crowd_closest)) /\
  head10 (reset_index crowd_closest)
  = [(Text "i", 1); (Text "b", 1); (Text "p", 2); (Text "o", 2); (Text "n", 2);
     (Text "m", 2); (Text "l", 2); (Text "k", 2); (Text "j", 2);
     (Text "a", 2)]%float /\
  spec_leaderboard crowd_frame
  = [(Text "b", 1); (Text "i", 1); (Text "a", 2); (Text "c", 2); (Text "d", 2);
     (Text "e", 2); (Text "f", 2); (Text "g", 2); (Text "h", 2);
     (Text "j", 2)]%float /\
  head10 (reset_index crowd_closest) <> spec_leaderboard crowd_frame /\
  sort_values_aquicksort abcd_frame
  = Some [entrant 1 "B" 1; entrant 2 "C" 1; entrant 3 "D" 2; entrant 0 "A" 3]%float.
Proof.
  split; [exact crowd_quicksorted|].
  split; [exists crowd_closest; split; [exact crowd_admitted | reflexivity]|].
  split; [vm_compute; reflexivity|].
  split; [vm_compute; reflexivity|].
  split; [vm_compute; discriminate | vm_compute; reflexivity].
Qed.

Lemma leaderboard_ascending_witness :
  leaderboard crowd_frame (head10 (reset_index crowd_closest)) /\
  List.length (head10 (reset_index crowd_closest))
  = Nat.min 10 (List.length crowd_frame).
Proof.
  assert (Hb : leaderboard crowd_frame (head10 (reset_index crowd_closest)))
    by (exists crowd_closest; split; [exact crowd_admitted | reflexivity]).
  split; [exact Hb|].
  exact (proj1 (proj2 (leaderboard_ascending crowd_frame _ Hb))).
Defined.

(** C10 (as amended). On a non-empty populated frame with distinct labels,
    the draw returns one record, the earliest of those at the minimum
    distance, and that record and the first row of any ranking sort_values
    may return have equal distances (the minimum).  They are the same record
    when the winner's distance is strictly below every other participant's;
    on a tie for the minimum the ranking may start with another of the tied
    records. *)
Theorem winner_heads_ranking `{Platform} (df closest : frame) :
  df <> [] -> NoDup (List.map (@fst _ _) df) -> populated df ->
  sort_values df closest ->
  exists i w top rest,
    nth_error df i = Some w /\
    draw_winner df = Ok (Row w) /\
    (forall r, In r df -> (dist w <=? dist r)%float = true) /\
    (forall k r, k < i -> nth_error df k = Some r ->
                 (dist w <? dist r)%float = true) /\
    closest = top :: rest /\
    (dist w =? dist top)%float = true /\
    ((forall r, In r df -> r = w \/ (dist w <? dist r)%float = true) -> top = w).
Proof.
  intros Hne Hnd Hp Hsort.
  destruct (draw_winner_row df Hne Hnd Hp)
    as (i & w & Hw & Hdraw & v & Hv & Hmin & Hearlier).
  rewrite nth_error_map, Hw in Hv. injection Hv as <-.
  assert (Hle : forall r', In r' df -> (dist w <=? dist r')%float = true).
  { intros r' Hin. apply In_nth_error in Hin. destruct Hin as [k Hk].
    apply (Hmin k). now rewrite nth_error_map, Hk. }
  assert (Hperm := sort_values_perm df closest Hsort).
  destruct Hsort as (s & _ & Hs & Hc).
  destruct (populated_filter df Hp) as [_ Hnone].
  rewrite Hnone, app_nil_r in Hc. subst s.
  destruct closest as [|top rest].
  { apply Permutation_length in Hperm. destruct df; [congruence | discriminate]. }
  exists i, w, top, rest.
  assert (Htop : In top df).
  { eapply Permutation_in; [symmetry; exact Hperm | now left]. }
  assert (Hwin : In w (top :: rest)).
  { eapply Permutation_in; [exact Hperm | eapply nth_error_In; exact Hw]. }
  assert (Htw : (dist top <=? dist w)%float = true).
  { apply Sorted_StronglySorted in Hs; [|exact le_km_trans].
    inversion Hs as [|? ? _ Hall]; subst.
    destruct Hwin as [-> | Hin].
    - apply leb_refl. apply (leb_not_nan_l _ _ (Hle _ Htop)).
    - rewrite Forall_forall in Hall. now apply Hall. }
  split; [exact Hw|]. split; [exact Hdraw|]. split; [exact Hle|]. split.
  { intros k r Hk Hr. apply (Hearlier k); [assumption|].
    now rewrite nth_error_map, Hr. }
  split; [reflexivity|]. split.
  - apply leb_antisym; auto.
  - intros Huniq. destruct (Huniq top Htop) as [-> | Hlt]; [reflexivity|].
    rewrite ltb_leb in Hlt.
    + rewrite Htw in Hlt. discriminate.
    + apply (leb_not_nan_r _ _ Htw).
    + apply (leb_not_nan_l _ _ Htw).
Qed.

Lemma winner_heads_ranking_witness :
  exists i w top rest,
    nth_error tie_frame i = Some w /\
    draw_winner tie_frame = Ok (Row w) /\
    (forall r, In r tie_frame -> (dist w <=? dist r)%float = true) /\
    (forall k r, k < i -> nth_error tie_frame k = Some r ->
                 (dist w <? dist r)%float = true) /\
    spec_stable_sort tie_frame = top :: rest /\
    (dist w =? dist top)%float = true /\
    ((forall r, In r tie_frame -> r = w \/ (dist w <? dist r)%float = true) ->
     top = w).
Proof.
  apply (winner_heads_ranking tie_frame (spec_stable_sort tie_frame)).
  - discriminate.
  - simpl. repeat constructor; simpl; intuition discriminate.
  - repeat constructor.
  - apply spec_stable_sort_allowed.
Defined.

(** C10, counterexample. Among the eighteen participants a .. r, b and i are
    tied for the closest.  The draw returns b, the earlier of the two, while
    the ranking numpy's generic quicksort returns starts with i: the banner
    names b and the first row of the leaderboard names i. *)
Lemma winner_not_ranked_first :
  draw_winner crowd_frame = Ok (Row (entrant 1 "b" 1%float)) /\
  sort_values_aquicksort crowd_frame = Some crowd_closest /\
  sort_values crowd_frame crowd_closest /\
  hd_error crowd_closest = Some (entrant 8 "i" 1%float) /\
  hd_error (head10 (reset_index crowd_closest)) = Some (Text "i", 1%float) /\
  entrant 1 "b" 1%float <> entrant 8 "i" 1%float.
Proof.
  split; [vm_compute; reflexivity|].
  split; [exact crowd_quicksorted|].
  split; [exact crowd_admitted|].
  split; [reflexivity|]. split; [reflexivity | discriminate].
Qed.

(** * Ingestion and the session *)

Section Session.

Context `{Platform}.

Lemma mapM_length {A B : Type} (f : A -> result B) (l : list A) (l' : list B) :
  mapM f l = Ok l' -> List.length l' = List.length l.
Proof.
  revert l'. induction l as [|a l IH]; intros l' Hm; simpl in Hm.
  - injection Hm as <-. reflexivity.
  - destruct (f a) as [b|]; simpl in Hm; [|discriminate].
    destruct (mapM f l) as [bs|]; simpl in Hm; [|discriminate].
    injection Hm as <-. simpl. now rewrite (IH bs).
Qed.

(* upload_page either leaves the state alone, or stores what ingest built *)
Lemma upload_page_cases (s : session_state) (uploaded : option (result DataFrame)) :
  (fst (upload_page s uploaded) = s /\ snd (upload_page s uploaded) <> Uploaded) \/
  (exists df f,
     uploaded = Some (Ok df) /\ ingest df = Ok (Ingested f) /\
     upload_page s uploaded =
       ({| page := map_view; participants := Some f; winner := winner s |},
        Uploaded)).
Proof.
  unfold upload_page. destruct uploaded as [[df|e]|]; simpl.
  - destruct (ingest df) as [[why|f]|e] eqn:Hi.
    + left. split; [reflexivity | discriminate].
    + right. exists df, f. auto.
    + left. split; [reflexivity | discriminate].
  - left. split; [reflexivity | discriminate].
  - left. split; [reflexivity | discriminate].
Qed.

Lemma shape1_cons (r : list (option string)) (rows : list (list (option string))) :
  shape1 (r :: rows) = Nat.max (List.length r) (shape1 rows).
Proof. reflexivity. Qed.

Lemma regex_split1_parts (s : string) :
  (search_separator s = None /\ regex_split1 s = [s]) \/
  (exists before rest,
     search_separator s = Some (before, rest) /\ regex_split1 s = [before; rest]).
Proof.
  unfold regex_split1. destruct (search_separator s) as [[before rest]|].
  - right. exists before, rest. auto.
  - left. auto.
Qed.

Lemma split_cell_length (c : option string) :
  List.length (split_cell c) = 1 \/
  (exists s before rest, c = Some s /\ search_separator s = Some (before, rest)).
Proof.
  destruct c as [s|]; simpl; [|now left].
  destruct (regex_split1_parts s) as [[_ ->] | (b & r & Hs & ->)].
  - now left.
  - right. exists s, b, r. auto.
Qed.

(* the check on coord_split.shape[1] looks at the widest row only: it passes
   as soon as one cell holds a separator *)
Lemma shape1_two (cells : list (option string)) :
  shape1 (List.map split_cell cells) = 2 <->
  exists s before rest,
    In (Some s) cells /\ search_separator s = Some (before, rest).
Proof.
  assert (Hle : forall cs, shape1 (List.map split_cell cs) <= 2).
  { induction cs as [|c cs IH]; [unfold shape1; simpl; lia|].
    simpl List.map. rewrite shape1_cons.
    destruct (split_cell_length c) as [-> | (s & b & r & -> & Hs)].
    - apply Nat.max_lub; lia.
    - simpl. unfold regex_split1. rewrite Hs. apply Nat.max_lub; simpl; lia. }
  induction cells as [|c cells IH].
  - split; [discriminate | intros (s & b & r & [] & _)].
  - simpl List.map. rewrite shape1_cons.
    specialize (Hle cells).
    set (n := shape1 (List.map split_cell cells)) in *.
    destruct (split_cell_length c) as [Hc | (s & b & r & -> & Hs)].
    + rewrite Hc. split.
      * intros H2. assert (H3 : n = 2).
        { destruct (Nat.max_spec 1 n) as [[_ Hm] | [_ Hm]]; lia. }
        apply IH in H3. destruct H3 as (s & b & r & Hin & Hs).
        exists s, b, r. split; [now right | assumption].
      * intros (s & b & r & [-> | Hin] & Hs).
        -- simpl in Hc. unfold regex_split1 in Hc. rewrite Hs in Hc. discriminate.
        -- assert (H3 : n = 2) by (apply IH; exists s, b, r; auto).
           rewrite H3. reflexivity.
    + split.
      * intros _. exists s, b, r. split; [now left | assumption].
      * intros _. simpl. unfold regex_split1. rewrite Hs. simpl List.length.
        destruct (Nat.max_spec 2 n) as [[_ Hm] | [_ Hm]]; lia.
Qed.

Lemma shape1_two_nonempty (cells : list (option string)) :
  shape1 (List.map split_cell cells) = 2 -> cells <> [].
Proof. intros Hs ->. discriminate. Qed.

Lemma build_rows_cons (labels : list label) (names : list cell)
  (coords : list (option string)) (lats lons dists : list float) (n : nat) :
  List.length labels = S n -> List.length names = S n ->
  List.length coords = S n -> List.length lats = S n ->
  List.length lons = S n -> List.length dists = S n ->
  build_rows labels names coords lats lons dists <> [].
Proof.
  destruct labels, names, coords, lats, lons, dists; simpl; intros;
    discriminate.
Qed.

Lemma cells_of_length (s : series) :
  List.length (cells_of s) = series_length s.
Proof. destruct s; simpl; apply length_map. Qed.

(* a frame that ingest accepts has at least one row *)
Lemma ingest_nonempty (df : DataFrame) (f : frame) :
  well_formed df = true -> ingest df = Ok (Ingested f) -> f <> [].
Proof.
  intros Hwf Hing. unfold ingest in Hing.
  destruct (columns_eqb (columns df) ["name"%string; "coordinates"%string]) eqn:Hc;
    simpl in Hing; [|discriminate].
  unfold columns_eqb in Hc.
  destruct (list_eq_dec string_dec (columns df) ["name"%string; "coordinates"%string])
    as [Hcols|]; [clear Hc | discriminate].
  unfold well_formed in Hwf. apply andb_true_iff in Hwf. destruct Hwf as [Hlen Hall].
  rewrite Hcols in Hlen. apply Nat.eqb_eq in Hlen.
  unfold getitem in Hing. rewrite Hcols in Hing.
  destruct (data df) as [|s1 [|s2 [|s3 rest]]]; simpl in Hlen; try discriminate.
  simpl in Hall. rewrite !andb_true_iff, !Nat.eqb_eq in Hall.
  destruct Hall as (Hs1 & Hs2 & _).
  simpl in Hing.
  destruct s2 as [cells|vs]; simpl in Hing; [|discriminate].
  destruct (shape1 (List.map split_cell cells) =? 2) eqn:Hshape;
    simpl in Hing; [|discriminate].
  apply Nat.eqb_eq in Hshape. apply shape1_two_nonempty in Hshape.
  destruct (to_numeric (expand_column 0 (List.map split_cell cells)))
    as [lats|] eqn:Hlat; simpl in Hing; [|discriminate].
  destruct (to_numeric (expand_column 1 (List.map split_cell cells)))
    as [lons|] eqn:Hlon; simpl in Hing; [|discriminate].
  match type of Hing with
  | bind ?m _ = _ => destruct m as [dists|] eqn:Hdist; simpl in Hing; [|discriminate]
  end.
  injection Hing as <-.
  apply mapM_length in Hlat, Hlon, Hdist.
  unfold expand_column in Hlat, Hlon. rewrite !length_map in Hlat, Hlon.
  rewrite length_combine, Hlat, Hlon, Nat.min_id in Hdist.
  simpl in Hs2.
  destruct cells as [|c cells']; [congruence|].
  apply (build_rows_cons _ _ _ _ _ _ (List.length cells')); simpl in *;
    try rewrite cells_of_length; congruence.
Qed.

(* every state the script can reach holds no frame, or a frame with rows *)
Lemma reachable_participants (s : session_state) :
  reachable s -> participants s <> Some [].
Proof.
  induction 1 as [|s ev Hs IH Hev]; [discriminate|].
  destruct ev as [uploaded | draw_clicked | ]; simpl.
  - destruct (upload_page_cases (goto s upload) uploaded)
      as [[-> _] | (df & f & -> & Hing & ->)]; [exact IH|].
    simpl. intros Hf. injection Hf as ->.
    exact (ingest_nonempty df [] Hev Hing eq_refl).
  - unfold map_page. simpl.
    destruct (participants s) as [df|] eqn:Hp; simpl; [|congruence].
    destruct draw_clicked; simpl; [|congruence].
    destruct (draw_winner df); simpl; congruence.
  - unfold winner_page. simpl.
    destruct (participants s) as [df|] eqn:Hp; simpl; [|congruence].
    destruct (winner s) as [[r|rs]|]; simpl; try congruence.
    destruct (name (snd r)); simpl; congruence.
Qed.

End Session.

(** C7. A file whose header is not exactly [name, coordinates] is refused
    with the message "Invalid columns. Must be: name, coordinates", and the
    session is returned as it was; more generally every run of the upload
    page that does not end in success leaves the whole session, the loaded
    participants included, untouched. *)
Theorem upload_rejects_wrong_header `{Platform} (s : session_state)
  (df : DataFrame) :
  columns df <> ["name"; "coordinates"]%string ->
  upload_page s (Some (Ok df)) = (s, UploadRejected InvalidColumns) /\
  (forall uploaded,
     snd (upload_page s uploaded) <> Uploaded ->
     fst (upload_page s uploaded) = s).
Proof.
  intros Hcols. split.
  - unfold upload_page, ingest. simpl.
    unfold columns_eqb.
    destruct (list_eq_dec string_dec (columns df) ["name"%string; "coordinates"%string]);
      [contradiction | reflexivity].
  - intros uploaded Hout.
    destruct (upload_page_cases s uploaded) as [[Hs _] | (d & f & _ & _ & Hup)];
      [exact Hs|].
    rewrite Hup in Hout. simpl in Hout. congruence.
Qed.

Lemma upload_rejects_wrong_header_witness :
  columns three_column_file = ["name"; "lat"; "lon"]%string /\
  @upload_page reference_platform loaded_session (Some (Ok three_column_file))
  = (loaded_session, UploadRejected InvalidColumns).
Proof.
  split; [reflexivity|].
  apply (@upload_rejects_wrong_header reference_platform loaded_session
           three_column_file).
  discriminate.
Defined.

(** C3 (as amended). The upload page never touches the stored winner: after
    every run, successful or not, the winner is what it was before. A
    successful run replaces the participants by the frame just ingested and
    moves to the map view. *)
Theorem upload_keeps_winner `{Platform} (s : session_state)
  (uploaded : option (result DataFrame)) :
  winner (fst (upload_page s uploaded)) = winner s /\
  (snd (upload_page s uploaded) = Uploaded ->
   exists df f,
     uploaded = Some (Ok df) /\ ingest df = Ok (Ingested f) /\
     participants (fst (upload_page s uploaded)) = Some f /\
     page (fst (upload_page s uploaded)) = map_view).
Proof.
  destruct (upload_page_cases s uploaded) as [[Hs Hout] | (df & f & Hu & Hi & Hup)].
  - rewrite Hs. split; [reflexivity | contradiction].
  - rewrite Hup. simpl. split; [reflexivity|].
    intros _. exists df, f. auto.
Qed.

(** C3, counterexample. Upload Al and Bo, draw (Al wins), then upload a new
    file that holds only Cy: the session now holds Cy alone, and still holds
    Al as winner; the winner page shows Al. *)
Lemma stale_winner_after_upload :
  participants stale_session = Some [cy_row 0 "Cy"] /\
  winner stale_session = Some (Row al_row) /\
  snd (winner_page (goto stale_session winner_view)) = WinnerShown al_row.
Proof. vm_compute. repeat split. Qed.

(** C2. In every state the script reaches, a participant set with zero
    records is an absent one: the upload page stores a frame only when some
    coordinates cell split in two, so no stored frame is without rows.
    Drawing in such a state fails with the page's own error, "No data
    available. Please upload a CSV first.": no exception leaves the page, no
    winner is picked and the session is left as it was. *)
Theorem draw_without_participants `{Platform} (s : session_state)
  (draw_clicked : bool) :
  reachable s ->
  (forall df, participants s = Some df -> df = []) ->
  participants s = None /\
  map_page s draw_clicked = (s, NoData) /\
  winner (run s (RunMap draw_clicked)) = winner s /\
  participants (run s (RunMap draw_clicked)) = None.
Proof.
  intros Hreach Hzero.
  assert (Hnone : participants s = None).
  { destruct (participants s) as [df|] eqn:Hp; [|reflexivity].
    rewrite (Hzero df eq_refl) in Hp.
    elim (reachable_participants s Hreach Hp). }
  split; [exact Hnone|]. unfold run, map_page. simpl. rewrite Hnone.
  repeat split. exact Hnone.
Qed.

Lemma draw_without_participants_witness :
  participants initial_session = None /\
  map_page initial_session true = (initial_session, NoData) /\
  winner (run initial_session (RunMap true)) = winner initial_session /\
  participants (run initial_session (RunMap true)) = None.
Proof.
  apply (@draw_without_participants reference_platform initial_session true).
  - apply reach_init.
  - intros df Hdf. discriminate.
Defined.

(** C4. The width check passes as soon as one cell of the column holds a
    separator, so a cell without a comma in such a column is not refused:
    its second part is missing and becomes NaN. In the file
    [A,"12.34, -56.78" / B,3] row B is ingested with longitude NaN and
    distance NaN. *)
Theorem lone_number_accepted :
  (forall cells : list (option string),
     shape1 (List.map split_cell cells) = 2 <->
     exists s before rest,
       In (Some s) cells /\ search_separator s = Some (before, rest)) /\
  regex_split1 "3" = ["3"%string] /\
  exists b,
    @ingest reference_platform lone_number_file
    = Ok (Ingested [cy_row 0 "A"; (RangePos 1, b)]) /\
    coordinates b = Some "3"%string /\
    latitude b = 3%float /\
    PrimFloat.is_nan (longitude b) = true /\
    PrimFloat.is_nan (distance_km b) = true.
Proof.
  split; [exact shape1_two|]. split; [reflexivity|].
  exists {| name := Text "B"; coordinates := Some "3"%string;
            latitude := 3%float; longitude := PrimFloat.nan;
            distance_km := PrimFloat.nan |}.
  vm_compute. repeat split.
Qed.

(** C9. The cell "12.34, -56.78" splits into "12.34" and "-56.78" (the blank
    after the comma belongs to the separator); to_numeric hands each part to
    the tokenizer; and with the tokenizer's reading of decimal literals the
    row is ingested with latitude and longitude the doubles nearest to 12.34
    and -56.78 (each is within half a unit in the last place of the
    decimal). *)
Theorem parse_example_cell :
  split_cell (Some "12.34, -56.78"%string)
  = [Some "12.34"%string; Some "-56.78"%string] /\
  (forall P : Platform,
     @to_numeric P (expand_column 0 [split_cell (Some "12.34, -56.78"%string)])
     = match str_to_double "12.34" with
       | Some v => Ok [v]
       | None => Raise ValueError
       end /\
     @to_numeric P (expand_column 1 [split_cell (Some "12.34, -56.78"%string)])
     = match str_to_double "-56.78" with
       | Some v => Ok [v]
       | None => Raise ValueError
       end) /\
  (exists cy,
     @ingest reference_platform second_file = Ok (Ingested [(RangePos 0, cy)]) /\
     Prim2SF (latitude cy) = S754_finite false 6946802425218990 (-49) /\
     Prim2SF (longitude cy) = S754_finite true 7991074588815524 (-47)) /\
  (Z.abs (100 * 6946802425218990 - 1234 * 2 ^ 49) <= 50)%Z /\
  (Z.abs (100 * 7991074588815524 - 5678 * 2 ^ 47) <= 50)%Z.
Proof.
  split; [reflexivity|]. split.
  { intros P. unfold to_numeric. split; simpl.
    - destruct (str_to_double "12.34"); reflexivity.
    - destruct (str_to_double "-56.78"); reflexivity. }
  split.
  { exists (snd (cy_row 0 "Cy")). vm_compute. repeat split. }
  split; vm_compute; discriminate.
Qed.

(** * The distance calculator *)

Section Distance.

Context `{Platform}.

Lemma Prim2SF_zero : Prim2SF 0%float = S754_zero false.
Proof. vm_compute. reflexivity. Qed.

Lemma Prim2SF_infinity : Prim2SF PrimFloat.infinity = S754_infinity false.
Proof. vm_compute. reflexivity. Qed.

Lemma is_finite_spec (x : float) :
  PrimFloat.is_finite x = true <->
  (exists s, Prim2SF x = S754_zero s) \/
  (exists s m e, Prim2SF x = S754_finite s m e).
Proof.
  unfold PrimFloat.is_finite, PrimFloat.is_infinity, PrimFloat.is_nan.
  rewrite !FloatAxioms.eqb_spec, abs_spec, Prim2SF_infinity.
  assert (Hself : forall f, f <> S754_nan -> SFeqb f f = true).
  { intros f Hf. destruct (SFeqb f f) eqn:Ef; [reflexivity|].
    now apply SFeqb_self in Ef. }
  destruct (Prim2SF x) as [s|s| |s m e].
  - rewrite Hself by discriminate. cbn. split; [eauto | reflexivity].
  - rewrite Hself by discriminate. cbn. split; [discriminate|].
    intros [[s' Hs] | (s' & m & e & Hs)]; discriminate.
  - cbn. split; [discriminate|].
    intros [[s' Hs] | (s' & m & e & Hs)]; discriminate.
  - rewrite Hself by discriminate. cbn. split; [eauto 6 | reflexivity].
Qed.

Lemma is_finite_flags (x : float) :
  PrimFloat.is_finite x = true ->
  PrimFloat.is_nan x = false /\ PrimFloat.is_infinity x = false.
Proof.
  unfold PrimFloat.is_finite. rewrite negb_true_iff, orb_false_iff. auto.
Qed.

(* x - x is +0 for every finite x *)
Lemma sub_self (x : float) :
  PrimFloat.is_finite x = true -> (x - x)%float = 0%float.
Proof.
  intros Hx. apply Prim2SF_inj. rewrite sub_spec, Prim2SF_zero.
  apply is_finite_spec in Hx.
  destruct Hx as [[s ->] | (s & m & e & ->)].
  - destruct s; reflexivity.
  - unfold SF64sub, SFsub. now rewrite Z.sub_diag.
Qed.

Lemma mul_zero_r (x : float) :
  PrimFloat.is_finite x = true ->
  (x * 0)%float = 0%float \/ (x * 0)%float = (-0)%float.
Proof.
  intros Hx. apply is_finite_spec in Hx.
  assert (Hz : exists s, Prim2SF (x * 0)%float = S754_zero s).
  { rewrite mul_spec, Prim2SF_zero.
    destruct Hx as [[s ->] | (s & m & e & ->)]; simpl; eauto. }
  destruct Hz as [s Hs].
  rewrite <- (SF2Prim_Prim2SF (x * 0)%float), Hs.
  destruct s; [right | left]; reflexivity.
Qed.

Lemma mul_finite_self (x : float) :
  PrimFloat.is_finite (x * x)%float = true -> PrimFloat.is_finite x = true.
Proof.
  rewrite !is_finite_spec, mul_spec.
  destruct (Prim2SF x) as [s|s| |s m e]; simpl; intros Hx.
  - left. eauto.
  - destruct Hx as [[s' Hx] | (s' & m & e & Hx)]; discriminate.
  - destruct Hx as [[s' Hx] | (s' & m & e & Hx)]; discriminate.
  - right. eauto.
Qed.

Lemma Prim2SF_degToRad :
  Prim2SF degToRad = S754_finite false 5030569068109113 (-58).
Proof. vm_compute. reflexivity. Qed.

Lemma Prim2SF_one : Prim2SF 1%float = S754_finite false 4503599627370496 (-52).
Proof. vm_compute. reflexivity. Qed.

(* the radian measure of a finite angle is finite *)
Lemma radians_finite (x : float) :
  PrimFloat.is_finite x = true -> PrimFloat.is_finite (radians x) = true.
Proof.
  intros Hx. apply is_finite_spec. apply is_finite_spec in Hx.
  unfold radians. rewrite mul_spec, Prim2SF_degToRad.
  assert (Hv := Prim2SF_valid x).
  destruct Hx as [[s Hs] | (s & m & e & Hs)]; rewrite Hs in *.
  - left. simpl. eauto.
  - apply valid_finite_bounds in Hv.
    assert (Hk : Z.pos (digits2_pos 5030569068109113) = 53%Z)
      by (vm_compute; reflexivity).
    destruct (SFmul_finite s false m 5030569068109113 e (-58)) as [Hz | (m' & e' & Hf)];
      [lia | lia | left; eauto | right; eauto].
Qed.

(* two factors of magnitude at most 1 have a finite product *)
Lemma mul_unit_finite (c d : float) :
  (PrimFloat.abs c <=? 1)%float = true -> (PrimFloat.abs d <=? 1)%float = true ->
  PrimFloat.is_finite (c * d)%float = true.
Proof.
  assert (Hunit : forall x, (PrimFloat.abs x <=? 1)%float = true ->
            (exists s, Prim2SF x = S754_zero s) \/
            (exists s m e, Prim2SF x = S754_finite s m e /\
               (Z.pos (digits2_pos m) <= 53 /\ e <= -52)%Z)).
  { intros x Hx. rewrite leb_spec, abs_spec, Prim2SF_one in Hx.
    assert (Hv := Prim2SF_valid x).
    destruct (Prim2SF x) as [s|s| |s m e].
    - left. eauto.
    - destruct s; vm_compute in Hx; discriminate.
    - vm_compute in Hx. discriminate.
    - right. exists s, m, e. split; [reflexivity|].
      apply valid_finite_bounds in Hv. split; [lia|].
      unfold SFleb, SFabs, SFcompare in Hx.
      destruct (Z.compare_spec e (-52)); [lia | lia | discriminate]. }
  intros Hc Hd. apply Hunit in Hc, Hd. apply is_finite_spec. rewrite mul_spec.
  destruct Hc as [[sc ->] | (sc & mc & ec & -> & Hc1 & Hc2)];
    destruct Hd as [[sd ->] | (sd & md & ed & -> & Hd1 & Hd2)];
    try (left; simpl; eauto; fail).
  destruct (SFmul_finite sc sd mc md ec ed) as [Hz | (m' & e' & Hf)];
    [lia | lia | left; eauto | right; eauto].
Qed.

Lemma math_1_finite (f : float -> float) (x : float) :
  PrimFloat.is_finite (f x) = true -> math_1 f x = Ok (f x).
Proof.
  intros Hf. apply is_finite_flags in Hf. destruct Hf as [Hn Hi].
  unfold math_1. now rewrite Hn, Hi.
Qed.

Lemma math_1_ok (f : float -> float) (x r : float) :
  math_1 f x = Ok r -> r = f x.
Proof.
  unfold math_1.
  destruct (PrimFloat.is_nan (f x) && negb (PrimFloat.is_nan x)); [discriminate|].
  destruct (PrimFloat.is_infinity (f x) && PrimFloat.is_finite x);
    [discriminate | congruence].
Qed.

Lemma math_1_raise (f : float -> float) (x : float) (e : exn) :
  math_1 f x = Raise e -> e = ValueError.
Proof.
  unfold math_1.
  destruct (PrimFloat.is_nan (f x) && negb (PrimFloat.is_nan x)); [congruence|].
  destruct (PrimFloat.is_infinity (f x) && PrimFloat.is_finite x);
    [congruence | discriminate].
Qed.

(* the square root of a negative number is NaN: math.sqrt raises *)
Lemma math_sqrt_negative (x : float) :
  (x <? 0)%float = true -> math_sqrt x = Raise ValueError.
Proof.
  intros Hx. rewrite ltb_spec, Prim2SF_zero in Hx.
  assert (Hnan : PrimFloat.is_nan (PrimFloat.sqrt x) = true).
  { apply is_nan_spec. rewrite sqrt_spec.
    destruct (Prim2SF x) as [s|[]| |[] m e]; try discriminate; reflexivity. }
  assert (Hxn : PrimFloat.is_nan x = false).
  { apply not_nan_spec. destruct (Prim2SF x); discriminate. }
  unfold math_sqrt, math_1. now rewrite Hnan, Hxn.
Qed.

Lemma math_sqrt_ok (x r : float) :
  math_sqrt x = Ok r -> (x <? 0)%float = false /\ r = PrimFloat.sqrt x.
Proof.
  intros Hr. split; [|now apply math_1_ok].
  destruct (x <? 0)%float eqn:Hx; [|reflexivity].
  rewrite (math_sqrt_negative x Hx) in Hr. discriminate.
Qed.

(* the last line of calculate_distance, from the value of [a] on *)
Lemma haversine_km_unclamped (a : float) :
  (((a <? 0)%float = true \/ (1 - a <? 0)%float = true) ->
   haversine_km a = Raise ValueError) /\
  (forall d, haversine_km a = Ok d ->
     (a <? 0)%float = false /\ (1 - a <? 0)%float = false /\
     exists t,
       math_atan2 (PrimFloat.sqrt a) (PrimFloat.sqrt (1 - a)) = Ok t /\
       d = (12742 * t)%float).
Proof.
  unfold haversine_km. split.
  - intros [Ha | Hb].
    + now rewrite (math_sqrt_negative a Ha).
    + destruct (math_sqrt a) as [sa|e] eqn:Hsa; simpl.
      * now rewrite (math_sqrt_negative _ Hb).
      * now rewrite (math_1_raise _ _ _ Hsa).
  - intros d Hd.
    destruct (math_sqrt a) as [sa|] eqn:Hsa; simpl in Hd; [|discriminate].
    destruct (math_sqrt (1 - a)) as [sb|] eqn:Hsb; simpl in Hd; [|discriminate].
    destruct (math_atan2 sa sb) as [t|] eqn:Ht; simpl in Hd; [|discriminate].
    apply math_sqrt_ok in Hsa, Hsb.
    destruct Hsa as [Ha ->], Hsb as [Hb ->].
    repeat split; auto. exists t. split; congruence.
Qed.

Lemma nonneg_spec (x : float) :
  (0 <=? x)%float = true <-> SFnonneg (Prim2SF x).
Proof.
  rewrite leb_spec, Prim2SF_zero. unfold SFleb, SFcompare.
  destruct (Prim2SF x) as [s|[]| |[] m e]; simpl; intuition discriminate.
Qed.

Lemma binary_round_aux_nonneg (m e : Z) (l : location) :
  (0 <= m)%Z -> SFnonneg (binary_round_aux prec emax false m e l).
Proof.
  intros Hm.
  destruct (binary_round_aux_sign false m e l Hm) as [-> | [(m' & e' & ->) | ->]];
    exact I.
Qed.

Lemma nonneg_not_nan (x : float) :
  (0 <=? x)%float = true -> PrimFloat.is_nan x = false.
Proof. apply leb_not_nan_r. Qed.

(* the square root of a non-negative number is non-negative, and is -0 only
   for -0 *)
Lemma sqrt_nonneg (x : float) :
  (0 <=? x)%float = true ->
  (0 <=? PrimFloat.sqrt x)%float = true /\
  (Prim2SF (PrimFloat.sqrt x) = S754_zero true -> Prim2SF x = S754_zero true).
Proof.
  rewrite !nonneg_spec, sqrt_spec. unfold SF64sqrt, SFsqrt.
  destruct (Prim2SF x) as [s|[]| |[] m e]; simpl SFnonneg; try contradiction;
    intros _.
  - split; [exact I | auto].
  - split; [exact I | discriminate].
  - destruct (SFsqrt_core_binary prec emax (Z.pos m) e) as [[mz ez] lz] eqn:Ecore.
    assert (Hmz : (0 <= mz)%Z).
    { unfold SFsqrt_core_binary in Ecore.
      match type of Ecore with
      | (let (q, r) := Z.sqrtrem ?n in _) = _ =>
          assert (Hn : (0 <= n)%Z);
          [ | pose proof (Z.sqrtrem_spec n Hn) as Hs;
              destruct (Z.sqrtrem n) as [q r]; injection Ecore as <- _ _; lia ]
      end.
      destruct (e - 2 * _)%Z; try lia. apply Z.shiftl_nonneg. lia. }
    pose proof (binary_round_aux_sign false mz ez lz Hmz) as [-> | [(m' & e' & ->) | ->]];
      (split; [exact I | discriminate]).
Qed.

Lemma Prim2SF_12742 :
  Prim2SF 12742%float = S754_finite false 7004988580560896 (-39).
Proof. vm_compute. reflexivity. Qed.

(* 12742 * t is non-negative when t is *)
Lemma scale_nonneg (t : float) :
  (0 <=? t)%float = true -> (0 <=? 12742 * t)%float = true.
Proof.
  rewrite !nonneg_spec, mul_spec, Prim2SF_12742. unfold SF64mul, SFmul.
  destruct (Prim2SF t) as [s|[]| |[] m e]; simpl SFnonneg; try contradiction;
    intros _; try exact I.
  apply binary_round_aux_nonneg. lia.
Qed.

Lemma binary_normalize_not_nan (m e : Z) :
  binary_normalize prec emax m e false <> S754_nan.
Proof.
  unfold binary_normalize, binary_round.
  destruct m as [|p|p]; [discriminate | |];
    destruct (shl_align _ _ _) as [mz ez];
    match goal with
    | |- binary_round_aux _ _ ?s ?m ?e ?l <> _ =>
        destruct (binary_round_aux_sign s m e l ltac:(lia))
          as [-> | [(m' & e' & ->) | ->]]; discriminate
    end.
Qed.

(* 1 - a is a number when a is *)
Lemma one_minus_not_nan (a : float) :
  PrimFloat.is_nan a = false -> PrimFloat.is_nan (1 - a)%float = false.
Proof.
  rewrite !not_nan_spec, sub_spec, Prim2SF_one. unfold SF64sub, SFsub.
  destruct (Prim2SF a) as [s|s| |s m e]; intros Ha; try congruence; try discriminate.
  apply binary_normalize_not_nan.
Qed.

Lemma get_sign_spec (x : float) :
  PrimFloat.is_nan x = false -> PrimFloat.get_sign x = SFsign (Prim2SF x).
Proof.
  rewrite not_nan_spec. unfold PrimFloat.get_sign, PrimFloat.is_zero.
  change PrimFloat.zero with 0%float. change PrimFloat.one with 1%float.
  rewrite FloatAxioms.eqb_spec, Prim2SF_zero.
  destruct (Prim2SF x) as [s|s| |s m e] eqn:Ex; intros Hx; try congruence.
  - replace (SFeqb (S754_zero s) (S754_zero false)) with true by (destruct s; reflexivity).
    rewrite ltb_spec, div_spec, Ex, Prim2SF_one, Prim2SF_zero.
    destruct s; reflexivity.
  - replace (SFeqb (S754_infinity s) (S754_zero false)) with false by (destruct s; reflexivity).
    rewrite ltb_spec, Ex, Prim2SF_zero. destruct s; reflexivity.
  - replace (SFeqb (S754_finite s m e) (S754_zero false)) with false by (destruct s; reflexivity).
    rewrite ltb_spec, Ex, Prim2SF_zero. destruct s; reflexivity.
Qed.

Lemma nonneg_sign (x : float) :
  (0 <=? x)%float = true -> PrimFloat.get_sign x = true ->
  Prim2SF x = S754_zero true.
Proof.
  intros Hx Hs. rewrite get_sign_spec in Hs by now apply nonneg_not_nan.
  apply nonneg_spec in Hx.
  destruct (Prim2SF x) as [[]|[]| |[] m e]; simpl in *; try contradiction;
    try discriminate; reflexivity.
Qed.

Lemma m_atan2_nonneg (y x : float) :
  (0 <=? libm_atan2 y x)%float = true ->
  (0 <=? y)%float = true -> (0 <=? x)%float = true ->
  ~ (Prim2SF y = S754_zero true /\ Prim2SF x = S754_zero true) ->
  (0 <=? m_atan2 y x)%float = true.
Proof.
  intros Hlibm Hy Hx Hnot. unfold m_atan2.
  rewrite (nonneg_not_nan x Hx), (nonneg_not_nan y Hy). simpl orb. cbv iota.
  assert (Hcs : forall c, copysign c y = PrimFloat.abs c \/
                          (Prim2SF y = S754_zero true /\ copysign c y = (- PrimFloat.abs c)%float)).
  { intros c. unfold copysign. destruct (PrimFloat.get_sign y) eqn:Es; [right | now left].
    split; [now apply nonneg_sign | reflexivity]. }
  destruct (PrimFloat.is_infinity y) eqn:Eiy.
  - assert (Hyz : Prim2SF y <> S754_zero true).
    { intros Hz. unfold PrimFloat.is_infinity in Eiy.
      rewrite FloatAxioms.eqb_spec, abs_spec, Hz in Eiy. vm_compute in Eiy. discriminate. }
    destruct (PrimFloat.is_infinity x); [destruct (copysign 1 x =? 1)%float|];
      match goal with
      | |- (0 <=? copysign ?c y)%float = true =>
          destruct (Hcs c) as [-> | [Hz _]]; [vm_compute; reflexivity | contradiction]
      end.
  - destruct (PrimFloat.is_infinity x || (y =? 0)%float).
    + destruct (copysign 1 x =? 1)%float eqn:Ecx.
      * destruct (Hcs 0%float) as [-> | [_ ->]]; vm_compute; reflexivity.
      * destruct (Hcs math_pi) as [-> | [Hz _]]; [vm_compute; reflexivity|].
        exfalso. apply Hnot. split; [assumption|].
        apply nonneg_sign; [assumption|].
        unfold copysign in Ecx.
        destruct (PrimFloat.get_sign x); [reflexivity|].
        vm_compute in Ecx. discriminate.
    + exact Hlibm.
Qed.

Lemma math_atan2_ok (y x t : float) :
  math_atan2 y x = Ok t -> t = m_atan2 y x.
Proof.
  unfold math_atan2.
  destruct (PrimFloat.is_nan (m_atan2 y x)).
  - destruct (negb (PrimFloat.is_nan y) && negb (PrimFloat.is_nan x)); congruence.
  - destruct (PrimFloat.is_infinity (m_atan2 y x)); [|congruence].
    destruct (PrimFloat.is_finite y && PrimFloat.is_finite x); congruence.
Qed.

(* when the last line returns for a value [a] that is a number, what it
   returns is non-negative *)
Lemma haversine_km_nonneg (a d : float) :
  (0 <=? libm_atan2 (PrimFloat.sqrt a) (PrimFloat.sqrt (1 - a)))%float = true ->
  PrimFloat.is_nan a = false ->
  haversine_km a = Ok d -> (0 <=? d)%float = true.
Proof.
  intros Hlibm Hnan Hd.
  destruct (proj2 (haversine_km_unclamped a) d Hd) as (Ha & Hb & t & Ht & ->).
  assert (Hnan1 := one_minus_not_nan a Hnan).
  assert (Ha0 : (0 <=? a)%float = true).
  { rewrite ltb_leb in Ha by (try assumption; reflexivity).
    now apply negb_false_iff in Ha. }
  assert (Hb0 : (0 <=? 1 - a)%float = true).
  { rewrite ltb_leb in Hb by (try assumption; reflexivity).
    now apply negb_false_iff in Hb. }
  destruct (sqrt_nonneg a Ha0) as [Hsa Hsa0].
  destruct (sqrt_nonneg (1 - a) Hb0) as [Hsb Hsb0].
  apply scale_nonneg. rewrite (math_atan2_ok _ _ _ Ht).
  apply m_atan2_nonneg; try assumption.
  intros [Hy Hx]. apply Hsa0 in Hy. apply Hsb0 in Hx.
  rewrite sub_spec, Hy, Prim2SF_one in Hx. discriminate.
Qed.
End Distance.

(** C6 (as amended). calculate_distance has no clamp: the square roots are
    taken of [a] and of [1 - a] as computed. Whenever the computed [a] is
    negative, or so far above 1 that [1 - a] is negative, the call raises
    ValueError (math domain error). Whenever the call returns, [a] and
    [1 - a] were not negative and the result is
    12742 * atan2(sqrt a, sqrt (1 - a)); it is then non-negative, provided
    [a] is a number and the C library's atan2 is non-negative at the two
    square roots. *)
Theorem calculate_distance_unclamped `{Platform}
  (lat1 lon1 lat2 lon2 a : float) :
  haversine_a lat1 lon1 lat2 lon2 = Ok a ->
  (((a <? 0)%float = true \/ (1 - a <? 0)%float = true) ->
   calculate_distance lat1 lon1 lat2 lon2 = Raise ValueError) /\
  (forall d, calculate_distance lat1 lon1 lat2 lon2 = Ok d ->
     (a <? 0)%float = false /\ (1 - a <? 0)%float = false /\
     exists t,
       math_atan2 (PrimFloat.sqrt a) (PrimFloat.sqrt (1 - a)) = Ok t /\
       d = (12742 * t)%float) /\
  (forall d, calculate_distance lat1 lon1 lat2 lon2 = Ok d ->
     PrimFloat.is_nan a = false ->
     (0 <=? libm_atan2 (PrimFloat.sqrt a) (PrimFloat.sqrt (1 - a)))%float = true ->
     (0 <=? d)%float = true).
Proof.
  intros Ha. unfold calculate_distance. rewrite Ha. simpl bind.
  destruct (haversine_km_unclamped a) as [Hraise Hok].
  split; [exact Hraise|]. split; [exact Hok|].
  intros d Hd Hnan Hlibm. exact (haversine_km_nonneg a d Hlibm Hnan Hd).
Qed.

Lemma calculate_distance_unclamped_witness :
  @calculate_distance reference_platform 8 0 (-8) 180 = Raise ValueError /\
  (0 <=? 0x1.fdf7f7f9324a5p+13)%float = true.
Proof.
  split.
  - apply (proj1 (@calculate_distance_unclamped reference_platform
                    8 0 (-8) 180 0x1.0000000000001p+0 eq_refl))%float.
    right. reflexivity.
  - apply (proj2 (proj2 (@calculate_distance_unclamped reference_platform
                    (fst GIVEAWAY_LOCATION) (snd GIVEAWAY_LOCATION)
                    0x1.8ae147ae147aep+3 (-0x1.c63d70a3d70a4p+5)
                    0x1.d61d481c452b3p-1 eq_refl)))%float; reflexivity.
Defined.

(** C6, counterexample. From (8, 0) to the antipodal point (-8, 180), with
    the sines and cosines glibc returns, the computed [a] is
    1.0000000000000002: [1 - a] is negative and the call raises ValueError. *)
Lemma antipodal_domain_error :
  @haversine_a reference_platform 8 0 (-8) 180 = Ok 0x1.0000000000001p+0%float /\
  (1 <? 0x1.0000000000001p+0)%float = true /\
  (1 - 0x1.0000000000001p+0 <? 0)%float = true /\
  @calculate_distance reference_platform 8 0 (-8) 180 = Raise ValueError.
Proof. repeat split. Qed.

(** C8. For every point with finite coordinates, the distance from the
    point to itself is exactly +0.0, on every platform whose sine maps +0
    to +0 and whose cosine at the latitude has magnitude at most 1. *)
Theorem distance_to_itself_is_zero `{Platform} (lat lon : float) :
  PrimFloat.is_finite lat = true ->
  PrimFloat.is_finite lon = true ->
  libm_sin 0%float = 0%float ->
  (PrimFloat.abs (libm_cos (radians lat)) <=? 1)%float = true ->
  calculate_distance lat lon lat lon = Ok 0%float.
Proof.
  intros Hlat Hlon Hsin Hcos.
  apply radians_finite in Hlat, Hlon.
  assert (Hcc := mul_unit_finite _ _ Hcos Hcos).
  unfold calculate_distance, haversine_a.
  rewrite (sub_self _ Hlat), (sub_self _ Hlon).
  change (0 / 2)%float with 0%float.
  assert (Hs : math_sin 0%float = Ok 0%float).
  { unfold math_sin. rewrite math_1_finite; rewrite Hsin; reflexivity. }
  rewrite Hs. simpl bind.
  change (float_pow2 0%float) with (@Ok float 0%float). simpl bind.
  assert (Hc : math_cos (radians lat) = Ok (libm_cos (radians lat))).
  { unfold math_cos. apply math_1_finite. now apply mul_finite_self. }
  rewrite Hc. simpl bind.
  destruct (mul_zero_r _ Hcc) as [-> | ->]; reflexivity.
Qed.

Lemma distance_to_itself_is_zero_witness :
  @calculate_distance reference_platform
    (fst GIVEAWAY_LOCATION) (snd GIVEAWAY_LOCATION)
    (fst GIVEAWAY_LOCATION) (snd GIVEAWAY_LOCATION) = Ok 0%float.
Proof.
  apply (@distance_to_itself_is_zero reference_platform); reflexivity.
Defined.

(** * Further properties of the split *)

Section Split.

Lemma comma_not_space (c : ascii) : is_comma c = true -> is_space c = false.
Proof.
  unfold is_comma, is_space. intros Hc. apply Nat.eqb_eq in Hc.
  rewrite Hc. reflexivity.
Qed.

Lemma match_separator_space (c : ascii) (s : string) :
  is_space c = true -> match_separator (String c s) = match_separator s.
Proof. intros Hc. unfold match_separator. simpl. now rewrite Hc. Qed.

Lemma match_separator_other (c : ascii) (s : string) :
  is_space c = false -> is_comma c = false ->
  match_separator (String c s) = None.
Proof. intros Hs Hc. unfold match_separator. simpl. now rewrite Hs, Hc. Qed.

Lemma match_separator_comma (c : ascii) (s : string) :
  is_comma c = true ->
  match_separator (String c s) = Some (skip_spaces s).
Proof.
  intros Hc. unfold match_separator. simpl.
  now rewrite (comma_not_space c Hc), Hc.
Qed.

Lemma search_separator_step_aux (c : ascii) (s : string) :
  match_separator (String c s) = None ->
  search_separator (String c s) =
  match search_separator s with
  | Some (before, rest) => Some (String c before, rest)
  | None => None
  end.
Proof.
  intros Hm. change (search_separator (String c s)) with
    (match match_separator (String c s) with
     | Some rest => Some (EmptyString, rest)
     | None =>
         match search_separator s with
         | Some (before, rest) => Some (String c before, rest)
         | None => None
         end
     end).
  now rewrite Hm.
Qed.

(* a match that starts later leaves a first part that is not empty *)
Lemma search_separator_later (s : string) (before rest : string) :
  match_separator s = None -> search_separator s = Some (before, rest) ->
  before <> EmptyString.
Proof.
  intros Hm Hs. destruct s as [|c s].
  - discriminate.
  - rewrite (search_separator_step_aux c s Hm) in Hs.
    destruct (search_separator s) as [[b r]|]; [|discriminate].
    injection Hs as <- _. discriminate.
Qed.

Lemma search_separator_head (s rest : string) :
  match_separator s = Some rest ->
  search_separator s = Some (EmptyString, rest).
Proof.
  intros Hm. destruct s as [|c s]; [discriminate|].
  change (search_separator (String c s)) with
    (match match_separator (String c s) with
     | Some rest => Some (EmptyString, rest)
     | None =>
         match search_separator s with
         | Some (before, rest) => Some (String c before, rest)
         | None => None
         end
     end).
  now rewrite Hm.
Qed.

Lemma search_separator_cut (s : string) :
  search_separator s =
  match cut_at_comma s with
  | Some (before, rest) => Some (rstrip before, skip_spaces rest)
  | None => None
  end.
Proof.
  induction s as [|c s IH].
  - reflexivity.
  - destruct (is_comma c) eqn:Hc.
    + rewrite (search_separator_head _ _ (match_separator_comma c s Hc)).
      simpl. now rewrite Hc.
    + simpl cut_at_comma. rewrite Hc.
      destruct (is_space c) eqn:Hs.
      * destruct (match_separator s) as [rest|] eqn:Hm.
        -- rewrite (search_separator_head (String c s) rest)
             by (now rewrite match_separator_space).
           rewrite (search_separator_head s rest Hm) in IH.
           destruct (cut_at_comma s) as [[b r]|]; [|discriminate].
           injection IH as Hb Hr. simpl. rewrite <- Hb, Hs. now rewrite Hr.
        -- rewrite search_separator_step_aux by (now rewrite match_separator_space).
           destruct (search_separator s) as [[b' r']|] eqn:Hss.
           ++ assert (Hne := search_separator_later s b' r' Hm Hss).
              destruct (cut_at_comma s) as [[b r]|]; [|discriminate].
              injection IH as Hb Hr. simpl. rewrite <- Hb, <- Hr.
              destruct b'; [congruence | reflexivity].
           ++ destruct (cut_at_comma s) as [[b r]|]; [discriminate | reflexivity].
      * rewrite search_separator_step_aux by (now apply match_separator_other).
        rewrite IH. destruct (cut_at_comma s) as [[b r]|]; [|reflexivity].
        simpl. rewrite Hs. now destruct (rstrip b).
Qed.

Lemma cut_at_comma_has_comma (s : string) :
  has_comma s = true <-> cut_at_comma s <> None.
Proof.
  induction s as [|c s IH]; simpl.
  - split; [discriminate | congruence].
  - destruct (is_comma c); simpl.
    + split; [discriminate | reflexivity].
    + rewrite IH. destruct (cut_at_comma s) as [[b r]|]; split; congruence.
Qed.

Lemma search_separator_has_comma (s : string) :
  has_comma s = true <-> exists before rest, search_separator s = Some (before, rest).
Proof.
  rewrite cut_at_comma_has_comma, search_separator_cut.
  destruct (cut_at_comma s) as [[b r]|]; split.
  - eauto.
  - discriminate.
  - congruence.
  - intros (b & r & Hbr). discriminate.
Qed.

End Split.

(** X1. The split of a cell, in closed form: a cell without a comma is one
    part, the cell itself; a cell with a comma is two parts, the text before
    its first comma without trailing blanks and the text after that comma
    without leading blanks (later commas stay in the second part). *)
Theorem regex_split1_closed_form (s : string) :
  regex_split1 s =
  match cut_at_comma s with
  | Some (before, rest) => [rstrip before; skip_spaces rest]
  | None => [s]
  end.
Proof.
  unfold regex_split1. rewrite search_separator_cut.
  now destruct (cut_at_comma s) as [[b r]|].
Qed.

(** * Further properties of the ingestion *)

Section Ingested.

Context `{Platform}.

Lemma columns_eqb_eq (a b : list string) : columns_eqb a b = true <-> a = b.
Proof.
  unfold columns_eqb. destruct (list_eq_dec string_dec a b); split; congruence.
Qed.

(* what a successful ingestion went through *)
Lemma ingest_inversion (df : DataFrame) (f : frame) :
  ingest df = Ok (Ingested f) ->
  columns df = ["name"%string; "coordinates"%string] /\
  exists cells names lats lons dists,
    getitem df "coordinates" = Ok (ObjectSeries cells) /\
    shape1 (List.map split_cell cells) = 2 /\
    to_numeric (expand_column 0 (List.map split_cell cells)) = Ok lats /\
    to_numeric (expand_column 1 (List.map split_cell cells)) = Ok lons /\
    mapM row_distance (combine lats lons) = Ok dists /\
    getitem df "name" = Ok names /\
    f = build_rows (index df) (cells_of names) cells lats lons dists.
Proof.
  intros Hing. unfold ingest in Hing.
  change (fun ll : float * float =>
            calculate_distance (fst GIVEAWAY_LOCATION) (snd GIVEAWAY_LOCATION)
              (fst ll) (snd ll)) with row_distance in Hing.
  destruct (columns_eqb (columns df) ["name"%string; "coordinates"%string]) eqn:Hc;
    cbn [negb] in Hing; [|discriminate].
  apply columns_eqb_eq in Hc. split; [exact Hc|].
  destruct (getitem df "coordinates") as [[cells|vs]|] eqn:Hg;
    cbn [bind str_accessor] in Hing; try discriminate.
  destruct (shape1 (List.map split_cell cells) =? 2) eqn:Hshape;
    cbn [negb] in Hing; [|discriminate].
  apply Nat.eqb_eq in Hshape.
  destruct (to_numeric (expand_column 0 (List.map split_cell cells)))
    as [lats|] eqn:Hlat; cbn [bind] in Hing; [|discriminate].
  destruct (to_numeric (expand_column 1 (List.map split_cell cells)))
    as [lons|] eqn:Hlon; cbn [bind] in Hing; [|discriminate].
  destruct (mapM row_distance (combine lats lons)) as [dists|] eqn:Hdist;
    cbn [bind] in Hing; [|discriminate].
  destruct (getitem df "name") as [names|] eqn:Hn; cbn [bind] in Hing; [|discriminate].
  injection Hing as <-.
  exists cells, names, lats, lons, dists. repeat split; auto.
Qed.

Lemma mapM_nth {A B : Type} (f : A -> result B) (l : list A) (l' : list B)
  (i : nat) (a : A) (b : B) :
  mapM f l = Ok l' -> nth_error l i = Some a -> nth_error l' i = Some b ->
  f a = Ok b.
Proof.
  revert l' i. induction l as [|x l IH]; intros l' i Hm Ha Hb.
  - destruct i; discriminate.
  - simpl in Hm. destruct (f x) as [y|] eqn:Hx; simpl in Hm; [|discriminate].
    destruct (mapM f l) as [ys|] eqn:Hl; simpl in Hm; [|discriminate].
    injection Hm as <-. destruct i as [|i]; simpl in Ha, Hb.
    + congruence.
    + eapply IH; eauto.
Qed.

Lemma build_rows_nth (labels : list label) (names : list cell)
  (coords : list (option string)) (lats lons dists : list float)
  (i : nat) (r : label * participant) :
  nth_error (build_rows labels names coords lats lons dists) i = Some r ->
  nth_error labels i = Some (fst r) /\
  nth_error names i = Some (name (snd r)) /\
  nth_error coords i = Some (coordinates (snd r)) /\
  nth_error lats i = Some (latitude (snd r)) /\
  nth_error lons i = Some (longitude (snd r)) /\
  nth_error dists i = Some (distance_km (snd r)).
Proof.
  revert names coords lats lons dists i.
  induction labels as [|l labels IH]; intros names coords lats lons dists i Hr.
  - destruct i; discriminate.
  - destruct names as [|n names], coords as [|c coords], lats as [|la lats],
      lons as [|lo lons], dists as [|d dists];
      try (simpl in Hr; destruct i; discriminate).
    destruct i as [|i]; simpl in Hr.
    + injection Hr as <-. simpl. repeat split.
    + simpl. now apply IH.
Qed.

Lemma build_rows_columns (labels : list label) (names : list cell)
  (coords : list (option string)) (lats lons dists : list float) (n : nat) :
  List.length labels = n -> List.length names = n ->
  List.length coords = n -> List.length lats = n ->
  List.length lons = n -> List.length dists = n ->
  List.map (@fst _ _) (build_rows labels names coords lats lons dists) = labels /\
  List.map (fun r => name (snd r)) (build_rows labels names coords lats lons dists)
  = names /\
  List.map (fun r => coordinates (snd r))
    (build_rows labels names coords lats lons dists) = coords.
Proof.
  revert labels names coords lats lons dists.
  induction n as [|n IH]; intros labels names coords lats lons dists;
    destruct labels, names, coords, lats, lons, dists; simpl; intros;
    try discriminate; auto.
  destruct (IH labels names coords lats lons dists) as (E1 & E2 & E3);
    try congruence.
  now rewrite E1, E2, E3.
Qed.

Lemma nth_error_combine {A B : Type} (l : list A) (l' : list B) (i : nat)
  (a : A) (b : B) :
  nth_error l i = Some a -> nth_error l' i = Some b ->
  nth_error (combine l l') i = Some (a, b).
Proof.
  revert l' i. induction l as [|x l IH]; intros l' i Ha Hb.
  - destruct i; discriminate.
  - destruct l' as [|y l']; [destruct i; discriminate|].
    destruct i as [|i]; simpl in *; [congruence | now apply IH].
Qed.

Lemma to_numeric_single (c : option string) (cs : list (option string))
  (vs : list float) (i : nat) (v : float) :
  to_numeric cs = Ok vs -> nth_error cs i = Some c -> nth_error vs i = Some v ->
  to_numeric [c] = Ok [v].
Proof.
  intros Hm Hc Hv. unfold to_numeric in *.
  pose proof (mapM_nth _ _ _ _ _ _ Hm Hc Hv) as Hcv.
  simpl. now rewrite Hcv.
Qed.

Lemma to_numeric_raise (cs : list (option string)) (e : exn) :
  to_numeric cs = Raise e -> e = ValueError.
Proof.
  unfold to_numeric. induction cs as [|c cs IH]; simpl; [discriminate|].
  destruct c as [s|].
  - destruct (str_to_double s); simpl.
    + destruct (mapM _ cs); simpl; [discriminate|]. intros Hr. apply IH. congruence.
    + congruence.
  - simpl. destruct (mapM _ cs); simpl; [discriminate|]. intros Hr. apply IH. congruence.
Qed.

Lemma to_numeric_ok_parsed (cs : list (option string)) (vs : list float) (s : string) :
  to_numeric cs = Ok vs -> In (Some s) cs -> str_to_double s <> None.
Proof.
  unfold to_numeric. revert vs. induction cs as [|c cs IH]; intros vs Hm Hin.
  - contradiction.
  - simpl in Hm.
    destruct Hin as [-> | Hin].
    + destruct (str_to_double s); [discriminate | simpl in Hm; discriminate].
    + destruct c as [t|].
      * destruct (str_to_double t); simpl in Hm; [|discriminate].
        destruct (mapM _ cs) eqn:Hcs; simpl in Hm; [|discriminate].
        eapply IH; eauto.
      * simpl in Hm. destruct (mapM _ cs) eqn:Hcs; simpl in Hm; [|discriminate].
        eapply IH; eauto.
Qed.

Lemma lookup_column_in (cols : list string) (dat : list series) (col : string)
  (x : series) :
  lookup_column cols dat col = Ok x -> In x dat.
Proof.
  revert dat. induction cols as [|c cols IH]; intros [|y dat] Hl; simpl in Hl;
    try discriminate.
  destruct (String.eqb c col).
  - injection Hl as ->. now left.
  - right. now apply IH.
Qed.

Lemma getitem_length (df : DataFrame) (col : string) (x : series) :
  well_formed df = true -> getitem df col = Ok x ->
  series_length x = List.length (index df).
Proof.
  unfold well_formed, getitem. rewrite andb_true_iff, forallb_forall.
  intros [_ Hall] Hg. apply lookup_column_in in Hg.
  apply Nat.eqb_eq. now apply Hall.
Qed.

(* with the two expected column names, both columns are there *)
Lemma getitem_both (df : DataFrame) :
  well_formed df = true ->
  columns df = ["name"%string; "coordinates"%string] ->
  exists names coords,
    getitem df "name" = Ok names /\ getitem df "coordinates" = Ok coords.
Proof.
  unfold well_formed, getitem. rewrite andb_true_iff, Nat.eqb_eq.
  intros [Hlen _] Hc. rewrite Hc in *.
  destruct (data df) as [|s1 [|s2 rest]]; try discriminate.
  exists s1, s2. split; reflexivity.
Qed.

Lemma expand_column_nth (j i : nat) (cells : list (option string))
  (c : option string) :
  nth_error cells i = Some c ->
  nth_error (expand_column j (List.map split_cell cells)) i
  = Some (nth j (split_cell c) None).
Proof.
  intros Hc. unfold expand_column. rewrite map_map, nth_error_map, Hc.
  reflexivity.
Qed.

Lemma math_atan2_raise (y x : float) (e : exn) :
  math_atan2 y x = Raise e -> e = ValueError \/ e = OverflowError.
Proof.
  unfold math_atan2.
  destruct (PrimFloat.is_nan (m_atan2 y x)).
  - destruct (negb (PrimFloat.is_nan y) && negb (PrimFloat.is_nan x));
      [left; congruence | discriminate].
  - destruct (PrimFloat.is_infinity (m_atan2 y x)); [|discriminate].
    destruct (PrimFloat.is_finite y && PrimFloat.is_finite x);
      [right; congruence | discriminate].
Qed.

Lemma float_pow2_raise (x : float) (e : exn) :
  float_pow2 x = Raise e -> e = OverflowError.
Proof.
  unfold float_pow2.
  destruct (PrimFloat.is_nan x); [discriminate|].
  destruct (PrimFloat.is_infinity x); [discriminate|].
  destruct (x =? 0)%float; [discriminate|].
  destruct ((if (x <? 0)%float then (- x)%float else x) =? 1)%float; [discriminate|].
  destruct (PrimFloat.is_infinity _); [congruence | discriminate].
Qed.

Ltac raise_steps :=
  repeat match goal with
  | |- bind (math_1 ?f ?x) _ = _ -> _ =>
      let E := fresh "E" in
      destruct (math_1 f x) eqn:E; cbn [bind];
      [ | apply math_1_raise in E; left; congruence ]
  | |- bind (float_pow2 ?x) _ = _ -> _ =>
      let E := fresh "E" in
      destruct (float_pow2 x) eqn:E; cbn [bind];
      [ | apply float_pow2_raise in E; right; congruence ]
  | |- bind (math_atan2 ?y ?x) _ = _ -> _ =>
      let E := fresh "E" in
      destruct (math_atan2 y x) eqn:E; cbn [bind];
      [ | apply math_atan2_raise in E; intros Hr;
          destruct E; [left | right]; congruence ]
  end.

(* the only exceptions of calculate_distance *)
Lemma calculate_distance_raise (lat1 lon1 lat2 lon2 : float) (e : exn) :
  calculate_distance lat1 lon1 lat2 lon2 = Raise e ->
  e = ValueError \/ e = OverflowError.
Proof.
  unfold calculate_distance.
  destruct (haversine_a lat1 lon1 lat2 lon2) as [a|e'] eqn:Ea; cbn [bind].
  - unfold haversine_km, math_sqrt. raise_steps. intros Hr. discriminate.
  - intros Hr. injection Hr as ->. revert Ea.
    unfold haversine_a, math_sin, math_cos. cbv zeta.
    raise_steps. intros Hr. discriminate.
Qed.

Lemma mapM_raise {A B : Type} (f : A -> result B) (l : list A) (e : exn) :
  mapM f l = Raise e -> exists a, In a l /\ f a = Raise e.
Proof.
  induction l as [|x l IH]; simpl; [discriminate|].
  destruct (f x) as [y|e'] eqn:Hx; simpl.
  - destruct (mapM f l); simpl; [discriminate|].
    intros Hr. destruct (IH Hr) as (a & Ha & Hfa). eauto.
  - intros Hr. exists x. split; [now left | congruence].
Qed.

End Ingested.

(** X2. A successful ingestion keeps the rows of the file: the stored frame
    has one row per row of the file, in the file's order and under the
    file's row labels, and each row carries the name and the coordinates
    text of its row unchanged. *)
Theorem ingest_keeps_rows `{Platform} (df : DataFrame) (f : frame) :
  well_formed df = true -> ingest df = Ok (Ingested f) ->
  List.map (@fst _ _) f = index df /\
  exists names cells,
    getitem df "name" = Ok names /\
    getitem df "coordinates" = Ok (ObjectSeries cells) /\
    List.map (fun r => name (snd r)) f = cells_of names /\
    List.map (fun r => coordinates (snd r)) f = cells.
Proof.
  intros Hwf Hing.
  destruct (ingest_inversion df f Hing)
    as (Hc & cells & names & lats & lons & dists & Hg & _ & Hlat & Hlon & Hd & Hn & ->).
  apply mapM_length in Hlat, Hlon, Hd.
  unfold expand_column in Hlat, Hlon. rewrite !length_map in Hlat, Hlon.
  rewrite length_combine, Hlat, Hlon, Nat.min_id in Hd.
  assert (Hl1 := getitem_length df _ _ Hwf Hg).
  assert (Hl2 := getitem_length df _ _ Hwf Hn).
  simpl in Hl1.
  destruct (build_rows_columns (index df) (cells_of names) cells lats lons dists
              (List.length (index df))) as (E1 & E2 & E3);
    try rewrite cells_of_length; try congruence.
  split; [exact E1|]. exists names, cells. auto.
Qed.

Lemma ingest_keeps_rows_witness :
  @ingest reference_platform first_file = Ok (Ingested [al_row; bo_row]) /\
  List.map (@fst _ _) [al_row; bo_row] = index first_file.
Proof.
  assert (Hi : @ingest reference_platform first_file = Ok (Ingested [al_row; bo_row]))
    by (vm_compute; reflexivity).
  split; [exact Hi|].
  apply (@ingest_keeps_rows reference_platform first_file _ eq_refl Hi).
Defined.

(** X3. Every stored row is derived from its own coordinates text: its
    latitude is what to_numeric makes of the first part of the split, its
    longitude what to_numeric makes of the second part (a missing part or a
    missing cell is NaN), and its distance is calculate_distance from the
    giveaway location to that latitude and longitude. *)
Theorem ingest_rows_derived `{Platform} (df : DataFrame) (f : frame)
  (r : label * participant) :
  ingest df = Ok (Ingested f) -> In r f ->
  to_numeric [nth 0 (split_cell (coordinates (snd r))) None]
  = Ok [latitude (snd r)] /\
  to_numeric [nth 1 (split_cell (coordinates (snd r))) None]
  = Ok [longitude (snd r)] /\
  calculate_distance (fst GIVEAWAY_LOCATION) (snd GIVEAWAY_LOCATION)
    (latitude (snd r)) (longitude (snd r)) = Ok (distance_km (snd r)).
Proof.
  intros Hing Hin.
  destruct (ingest_inversion df f Hing)
    as (_ & cells & names & lats & lons & dists & _ & _ & Hlat & Hlon & Hd & _ & ->).
  apply In_nth_error in Hin. destruct Hin as [i Hi].
  apply build_rows_nth in Hi.
  destruct Hi as (_ & _ & Hc & Hla & Hlo & Hdi).
  split; [|split].
  - exact (to_numeric_single _ _ _ i _ Hlat (expand_column_nth 0 i cells _ Hc) Hla).
  - exact (to_numeric_single _ _ _ i _ Hlon (expand_column_nth 1 i cells _ Hc) Hlo).
  - exact (mapM_nth row_distance _ _ i _ _ Hd (nth_error_combine _ _ i _ _ Hla Hlo) Hdi).
Qed.

Lemma ingest_rows_derived_witness :
  @calculate_distance reference_platform
    (fst GIVEAWAY_LOCATION) (snd GIVEAWAY_LOCATION) 3 4
  = Ok 0x1.da36ab96033adp+13%float.
Proof.
  assert (Hi : @ingest reference_platform first_file = Ok (Ingested [al_row; bo_row]))
    by (vm_compute; reflexivity).
  apply (@ingest_rows_derived reference_platform first_file _ bo_row Hi).
  right. left. reflexivity.
Defined.

(** X4. With the two expected column names and a text coordinates column,
    the file is refused with "Invalid coordinates format" exactly when no
    cell of the column holds a comma (a file without data rows included);
    one cell with a comma is enough to pass the check. *)
Theorem invalid_coordinates_iff `{Platform} (df : DataFrame)
  (cells : list (option string)) :
  columns df = ["name"%string; "coordinates"%string] ->
  getitem df "coordinates" = Ok (ObjectSeries cells) ->
  (ingest df = Ok (Rejected InvalidCoordinates) <->
   forall s, In (Some s) cells -> has_comma s = false).
Proof.
  intros Hc Hg.
  assert (Hshape : shape1 (List.map split_cell cells) = 2 <->
                   exists s, In (Some s) cells /\ has_comma s = true).
  { rewrite shape1_two. split.
    - intros (s & b & r & Hin & Hs). exists s. split; [assumption|].
      apply search_separator_has_comma. eauto.
    - intros (s & Hin & Hs). apply search_separator_has_comma in Hs.
      destruct Hs as (b & r & Hs). eauto. }
  unfold ingest. apply columns_eqb_eq in Hc. rewrite Hc, Hg.
  cbn [negb bind str_accessor].
  destruct (shape1 (List.map split_cell cells) =? 2) eqn:E; cbn [negb].
  - apply Nat.eqb_eq in E. apply Hshape in E. destruct E as (s & Hin & Hs).
    split.
    + intros Hr. exfalso.
      destruct (to_numeric (expand_column 0 _)); cbn [bind] in Hr; [|discriminate].
      destruct (to_numeric (expand_column 1 _)); cbn [bind] in Hr; [|discriminate].
      destruct (mapM _ (combine _ _)); cbn [bind] in Hr; [|discriminate].
      destruct (getitem df "name"); cbn [bind] in Hr; discriminate.
    + intros Hall. rewrite (Hall s Hin) in Hs. discriminate.
  - split; [|reflexivity]. intros _ s Hin.
    destruct (has_comma s) eqn:Hs; [|reflexivity].
    apply Nat.eqb_neq in E. exfalso. apply E, Hshape. eauto.
Qed.

Lemma invalid_coordinates_iff_witness :
  @ingest reference_platform no_comma_file = Ok (Rejected InvalidCoordinates) /\
  @ingest reference_platform header_only_file = Ok (Rejected InvalidCoordinates).
Proof.
  split.
  - apply (proj2 (@invalid_coordinates_iff reference_platform no_comma_file
                    [Some "1"; Some "north"]%string eq_refl eq_refl)).
    intros s [Hs | [Hs | []]]; injection Hs as <-; reflexivity.
  - apply (proj2 (@invalid_coordinates_iff reference_platform header_only_file
                    [] eq_refl eq_refl)).
    intros s [].
Defined.

(** X5. When the coordinates column is numeric rather than text (which is
    how the three-field rows shown in the page's own format help are read),
    the .str accessor raises AttributeError: the upload page reports the
    error and leaves the session as it was. *)
Theorem numeric_coordinates_refused `{Platform} (s : session_state)
  (df : DataFrame) (vs : list float) :
  columns df = ["name"%string; "coordinates"%string] ->
  getitem df "coordinates" = Ok (NumericSeries vs) ->
  upload_page s (Some (Ok df)) = (s, UploadError AttributeError).
Proof.
  intros Hc Hg. unfold upload_page, ingest. cbn [bind].
  apply columns_eqb_eq in Hc. rewrite Hc, Hg. reflexivity.
Qed.

Lemma numeric_coordinates_refused_witness :
  @upload_page reference_platform loaded_session (Some (Ok help_text_file))
  = (loaded_session, UploadError AttributeError).
Proof.
  apply (@numeric_coordinates_refused reference_platform loaded_session
           help_text_file [0x1.2e1c78595fc1bp+7%float]); reflexivity.
Defined.

(** X6. One part that is not a number refuses the whole file: when some
    cell holds a comma and some part of some cell's split is text the
    tokenizer cannot read, the upload ends in ValueError and the session is
    left as it was; no row of the file is stored. *)
Theorem unparsable_part_refused `{Platform} (s : session_state)
  (df : DataFrame) (cells : list (option string)) (c c' p : string) :
  columns df = ["name"%string; "coordinates"%string] ->
  getitem df "coordinates" = Ok (ObjectSeries cells) ->
  In (Some c') cells -> has_comma c' = true ->
  In (Some c) cells -> In p (regex_split1 c) -> str_to_double p = None ->
  upload_page s (Some (Ok df)) = (s, UploadError ValueError).
Proof.
  intros Hc Hg Hc' Hcomma Hin Hp Hnone.
  assert (Hshape : shape1 (List.map split_cell cells) = 2).
  { apply shape1_two. apply search_separator_has_comma in Hcomma.
    destruct Hcomma as (b & r & Hs). eauto. }
  assert (Hcol : In (Some p) (expand_column 0 (List.map split_cell cells)) \/
                 In (Some p) (expand_column 1 (List.map split_cell cells))).
  { unfold expand_column. rewrite !in_map_iff.
    assert (Hrow : In (split_cell (Some c)) (List.map split_cell cells))
      by now apply in_map.
    simpl in Hrow.
    destruct (regex_split1_parts c) as [[_ E] | (b & r & _ & E)];
      rewrite E in Hp, Hrow.
    - destruct Hp as [<- | []]. left. eexists. split; [|exact Hrow]. reflexivity.
    - destruct Hp as [<- | [<- | []]].
      + left. eexists. split; [|exact Hrow]. reflexivity.
      + right. eexists. split; [|exact Hrow]. reflexivity. }
  unfold upload_page, ingest. cbn [bind].
  apply columns_eqb_eq in Hc. rewrite Hc, Hg. cbn [negb bind str_accessor].
  rewrite Hshape. cbn [Nat.eqb negb].
  destruct (to_numeric (expand_column 0 _)) as [lats|e] eqn:Hlat; cbn [bind].
  - destruct (to_numeric (expand_column 1 _)) as [lons|e] eqn:Hlon; cbn [bind].
    + exfalso. destruct Hcol as [H0 | H1].
      * exact (to_numeric_ok_parsed _ _ _ Hlat H0 Hnone).
      * exact (to_numeric_ok_parsed _ _ _ Hlon H1 Hnone).
    + now rewrite (to_numeric_raise _ _ Hlon).
  - now rewrite (to_numeric_raise _ _ Hlat).
Qed.

Lemma unparsable_part_refused_witness :
  @upload_page reference_platform loaded_session (Some (Ok bad_number_file))
  = (loaded_session, UploadError ValueError).
Proof.
  apply (@unparsable_part_refused reference_platform loaded_session
           bad_number_file [Some "1,2"; Some "3,x"]%string "3,x" "1,2" "x");
    try reflexivity; simpl; auto.
Defined.

(** X7. On a frame as read_csv returns it, the ingestion raises nothing but
    AttributeError (a coordinates column that is not text), ValueError (a
    part that is not a number, a math domain error) and OverflowError (a
    math range error); in particular a column lookup never fails once the
    column names were accepted. *)
Theorem ingest_error_kinds `{Platform} (df : DataFrame) (e : exn) :
  well_formed df = true -> ingest df = Raise e ->
  e = AttributeError \/ e = ValueError \/ e = OverflowError.
Proof.
  intros Hwf Hr. unfold ingest in Hr.
  destruct (columns_eqb (columns df) ["name"%string; "coordinates"%string]) eqn:Hc;
    cbn [negb] in Hr; [|discriminate].
  apply columns_eqb_eq in Hc.
  destruct (getitem_both df Hwf Hc) as (names & coords & Hn & Hg).
  rewrite Hg, Hn in Hr. cbn [bind] in Hr.
  destruct coords as [cells|vs]; cbn [bind str_accessor] in Hr;
    [|left; congruence].
  destruct (negb (shape1 (List.map split_cell cells) =? 2)); [discriminate|].
  destruct (to_numeric (expand_column 0 _)) as [lats|e0] eqn:Hlat; cbn [bind] in Hr;
    [|right; left; apply to_numeric_raise in Hlat; congruence].
  destruct (to_numeric (expand_column 1 _)) as [lons|e1] eqn:Hlon; cbn [bind] in Hr;
    [|right; left; apply to_numeric_raise in Hlon; congruence].
  destruct (mapM _ (combine lats lons)) as [dists|e2] eqn:Hd; cbn [bind] in Hr;
    [discriminate|].
  apply mapM_raise in Hd. destruct Hd as (ll & _ & Hll).
  apply calculate_distance_raise in Hll. right.
  destruct Hll; [left | right]; congruence.
Qed.

Lemma ingest_error_kinds_witness :
  @ingest reference_platform help_text_file = Raise AttributeError /\
  (AttributeError = AttributeError \/ AttributeError = ValueError \/
   AttributeError = OverflowError).
Proof.
  split; [reflexivity|].
  apply (@ingest_error_kinds reference_platform help_text_file); reflexivity.
Defined.

(** * Further properties of the draw *)

Section Draw.

Context `{Platform}.



Lemma fill_nan_not_nan (v : float) : PrimFloat.is_nan (fill_nan v) = false.
Proof.
  unfold fill_nan. destruct (PrimFloat.is_nan v) eqn:E; [reflexivity | exact E].
Qed.


(* the position argmin answers is a position of the list *)
Lemma argmin_from_range (vs : list float) (best i : nat) (mp : float) :
  best < i -> argmin_from best mp i vs < i + List.length vs.
Proof.
  revert best i mp. induction vs as [|v vs IH]; intros best i mp Hb; simpl.
  - lia.
  - destruct (negb (mp <=? v)%float).
    + specialize (IH i (S i) v). lia.
    + specialize (IH best (S i) mp). lia.
Qed.

Lemma argmin_range (vs : list float) (j : nat) :
  argmin vs = Ok j -> j < List.length vs.
Proof.
  destruct vs as [|v vs]; simpl; [discriminate|].
  intros Hj. injection Hj as <-.
  pose proof (argmin_from_range vs 0 1 v). lia.
Qed.

(* on a frame that is not empty and not all NaN, idxmin answers the label of
   one of its rows *)
Lemma idxmin_row (df : frame) :
  df <> [] -> forallb (fun x => PrimFloat.is_nan (dist x)) df = false ->
  exists j r,
    argmin (List.map (fun x => fill_nan (dist x)) df) = Ok j /\
    nth_error df j = Some r /\ idxmin df = Ok (Some (fst r)).
Proof.
  intros Hne Hall. unfold idxmin.
  destruct (argmin (List.map (fun x => fill_nan (dist x)) df)) as [j|e] eqn:Hj.
  - assert (Hr := argmin_range _ _ Hj). rewrite length_map in Hr.
    destruct (nth_error df j) as [r|] eqn:Er.
    + exists j, r. cbn [bind]. now rewrite Hall, Er.
    + apply nth_error_None in Er. lia.
  - destruct df; [congruence | discriminate].
Qed.

Lemma draw_winner_raises_all_nan (df : frame) :
  df <> [] -> forallb (fun x => PrimFloat.is_nan (dist x)) df = true ->
  draw_winner df = Raise all_nan_error.
Proof.
  intros Hne Hall. destruct df as [|x df]; [congruence|].
  unfold draw_winner, idxmin, all_nan_error. cbn [List.map argmin bind].
  rewrite Hall. now destruct pandas_major.
Qed.

(* a successful draw went through idxmin at the first least filled value *)
Lemma draw_winner_ok (df : frame) (sel : selection) :
  draw_winner df = Ok sel ->
  exists i r,
    nth_error df i = Some r /\
    first_minimum (List.map (fun x => fill_nan (dist x)) df) i /\
    idxmin df = Ok (Some (fst r)) /\
    loc df (Some (fst r)) = Ok sel.
Proof.
  intros Hd.
  destruct df as [|x df]; [discriminate|].
  destruct (forallb (fun y => PrimFloat.is_nan (dist y)) (x :: df)) eqn:Hall.
  - rewrite draw_winner_raises_all_nan in Hd; [discriminate | discriminate | exact Hall].
  - destruct (idxmin_row (x :: df) ltac:(discriminate) Hall)
      as (j & r & Hj & Hr & Hidx).
    destruct (argmin_first_minimum (List.map (fun y => fill_nan (dist y)) (x :: df)))
      as (j' & Hj' & Hmin).
    { discriminate. }
    { rewrite Forall_map, Forall_forall. intros y _. apply fill_nan_not_nan. }
    rewrite Hj in Hj'. injection Hj' as <-.
    exists j, r. split; [exact Hr|]. split; [exact Hmin|]. split; [exact Hidx|].
    unfold draw_winner in Hd. rewrite Hidx in Hd. exact Hd.
Qed.

End Draw.





(** X10. What the draw stores is read by label.  When the draw succeeds,
    idxmin answered the label of the row at the first position of the least
    distance (NaN counted as +inf), and the stored selection holds exactly
    the rows of the frame that carry that label, in the frame's order: that
    one row as a record when the labels are distinct, several rows as soon
    as another row carries the label. *)
Theorem draw_winner_selection `{Platform} (df : frame) (sel : selection) :
  draw_winner df = Ok sel ->
  exists i r,
    nth_error df i = Some r /\
    first_minimum (List.map (fun x => fill_nan (dist x)) df) i /\
    idxmin df = Ok (Some (fst r)) /\
    selection_rows sel = filter (fun x => label_eqb (fst x) (fst r)) df /\
    In r (selection_rows sel) /\
    (NoDup (List.map (@fst _ _) df) -> sel = Row r) /\
    (forall k r', k <> i -> nth_error df k = Some r' -> fst r' = fst r ->
                  exists rs, sel = Rows rs /\ 2 <= List.length rs).
Proof.
  intros Hd.
  destruct (draw_winner_ok df sel Hd) as (i & r & Hr & Hmin & Hidx & Hloc).
  destruct (loc_selection df i r Hr) as (sel' & Hloc' & Hrows & Hone & Hmany).
  rewrite Hloc in Hloc'. injection Hloc' as <-.
  exists i, r. split; [exact Hr|]. split; [exact Hmin|]. split; [exact Hidx|].
  split; [exact Hrows|]. split; [|split; [exact Hone | exact Hmany]].
  rewrite Hrows. apply filter_In.
  split; [eapply nth_error_In; exact Hr | now apply label_eqb_eq].
Qed.

Lemma draw_winner_selection_witness :
  draw_winner twin_frame
  = Ok (Rows [(RowKey "X", snd (entrant 0 "Bob" 2%float));
              (RowKey "X", snd (entrant 1 "Al" 1%float))]) /\
  exists i r,
    nth_error twin_frame i = Some r /\
    first_minimum (List.map (fun x => fill_nan (dist x)) twin_frame) i /\
    idxmin twin_frame = Ok (Some (fst r)) /\
    [(RowKey "X", snd (entrant 0 "Bob" 2%float));
     (RowKey "X", snd (entrant 1 "Al" 1%float))]
    = filter (fun x => label_eqb (fst x) (fst r)) twin_frame.
Proof.
  assert (Hd : draw_winner twin_frame
               = Ok (Rows [(RowKey "X", snd (entrant 0 "Bob" 2%float));
                           (RowKey "X", snd (entrant 1 "Al" 1%float))]))
    by (vm_compute; reflexivity).
  split; [exact Hd|].
  destruct (draw_winner_selection twin_frame _ Hd)
    as (i & r & Hr & Hmin & Hidx & Hrows & _).
  exists i, r. auto.
Defined.

(** * Further properties of the session *)

Section Routing.

Context `{Platform}.

Lemma run_session_ok (s : session_state) (ev : event) :
  session_ok s -> session_ok (run s ev).
Proof.
  intros [Hw _]. destruct ev as [uploaded | draw_clicked | ]; simpl.
  - destruct (upload_page_cases (goto s upload) uploaded)
      as [[-> _] | (df & f & _ & _ & ->)]; simpl.
    + split; [exact Hw | discriminate].
    + split; [discriminate | discriminate].
  - destruct s as [pg [df|] w]; unfold map_page, session_ok in *; simpl in *.
    + destruct draw_clicked; [destruct (draw_winner df)|]; simpl;
        split; discriminate.
    + split; [exact Hw | discriminate].
  - destruct s as [pg [df|] w]; unfold winner_page, session_ok in *;
      simpl in *.
    + destruct w as [[r|rs]|]; [destruct (name (snd r))| |]; simpl;
        split; try discriminate; intros Hn; now elim Hn.
    + split; [exact Hw | discriminate].
Qed.

End Routing.

(** X11. In every state the script reaches, a stored winner comes with
    stored participants, and the current page is the winner view only when
    a winner is stored: a run that finds the winner view without winner or
    participants ends on the upload page. *)
Theorem reachable_session_ok `{Platform} (s : session_state) :
  reachable s ->
  (winner s <> None -> participants s <> None) /\
  (page s = winner_view -> winner s <> None).
Proof.
  induction 1 as [|s ev _ IH _].
  - split; [intros Hw; now elim Hw | discriminate].
  - exact (run_session_ok s ev IH).
Qed.

Lemma stale_session_reachable : @reachable reference_platform stale_session.
Proof.
  unfold stale_session.
  apply reach_run; [apply reach_run; [apply reach_run; [apply reach_init|]|]|];
    simpl; try exact I; reflexivity.
Qed.

Lemma reachable_session_ok_witness :
  (winner stale_session <> None -> participants stale_session <> None) /\
  (page stale_session = winner_view -> winner stale_session <> None).
Proof.
  exact (@reachable_session_ok reference_platform stale_session
           stale_session_reachable).
Defined.

(** X12. Draw, then show: on a frame that is not empty, has distinct labels,
    a distance in every row and a text name in every row, clicking the draw
    stores one row of the frame whose distance is at most every
    participant's, leaves the participants as they were, and the winner
    page that follows shows exactly that row. *)
Theorem draw_then_show `{Platform} (s : session_state) (df : frame) :
  participants s = Some df ->
  df <> [] -> NoDup (List.map (@fst _ _) df) -> populated df ->
  (forall r, In r df -> exists t, name (snd r) = Text t) ->
  exists r,
    In r df /\
    (forall r', In r' df -> (dist r <=? dist r')%float = true) /\
    map_page s true
    = ({| page := winner_view; participants := Some df; winner := Some (Row r) |},
       WinnerDrawn) /\
    winner_page (fst (map_page s true))
    = ({| page := winner_view; participants := Some df; winner := Some (Row r) |},
       WinnerShown r).
Proof.
  intros Hp Hne Hnd Hpop Hnames.
  destruct (draw_winner_row df Hne Hnd Hpop)
    as (i & r & Hr & Hdraw & v & Hv & Hle & _).
  rewrite nth_error_map, Hr in Hv. injection Hv as <-.
  assert (Hin := nth_error_In _ _ Hr).
  exists r. split; [exact Hin|]. split.
  { intros r' Hin'. apply In_nth_error in Hin'. destruct Hin' as [k Hk].
    apply (Hle k). now rewrite nth_error_map, Hk. }
  assert (Hm : map_page s true
               = ({| page := winner_view; participants := Some df;
                     winner := Some (Row r) |}, WinnerDrawn)).
  { unfold map_page. now rewrite Hp, Hdraw. }
  split; [exact Hm|]. rewrite Hm. unfold winner_page. simpl.
  destruct (Hnames r Hin) as [t ->]. reflexivity.
Qed.

Lemma draw_then_show_witness :
  exists r,
    In r tie_frame /\
    (forall r', In r' tie_frame -> (dist r <=? dist r')%float = true) /\
    map_page loaded_session true
    = ({| page := winner_view; participants := Some tie_frame;
          winner := Some (Row r) |}, WinnerDrawn) /\
    winner_page (fst (map_page loaded_session true))
    = ({| page := winner_view; participants := Some tie_frame;
          winner := Some (Row r) |}, WinnerShown r).
Proof.
  apply (draw_then_show loaded_session tie_frame).
  - reflexivity.
  - discriminate.
  - simpl. repeat constructor; simpl; intuition discriminate.
  - repeat constructor.
  - intros r [<- | [<- | [<- | [<- | []]]]]; eexists; reflexivity.
Defined.

(** * Further properties of the distance: coordinates that are not numbers *)

Section NotANumber.

Context `{Platform}.

Lemma Prim2SF_nan : Prim2SF PrimFloat.nan = S754_nan.
Proof. vm_compute. reflexivity. Qed.

Lemma nan_eq (x : float) : PrimFloat.is_nan x = true -> x = PrimFloat.nan.
Proof.
  intros Hx. apply is_nan_spec in Hx. apply Prim2SF_inj.
  now rewrite Hx, Prim2SF_nan.
Qed.

Lemma mul_nan_l (y : float) : (PrimFloat.nan * y)%float = PrimFloat.nan.
Proof.
  apply Prim2SF_inj. rewrite mul_spec, Prim2SF_nan. reflexivity.
Qed.

Lemma mul_nan_r (x : float) : (x * PrimFloat.nan)%float = PrimFloat.nan.
Proof.
  apply Prim2SF_inj. rewrite mul_spec, Prim2SF_nan.
  destruct (Prim2SF x); reflexivity.
Qed.

Lemma sub_nan_l (y : float) : (PrimFloat.nan - y)%float = PrimFloat.nan.
Proof.
  apply Prim2SF_inj. rewrite sub_spec, Prim2SF_nan. reflexivity.
Qed.

Lemma sub_nan_r (x : float) : (x - PrimFloat.nan)%float = PrimFloat.nan.
Proof.
  apply Prim2SF_inj. rewrite sub_spec, Prim2SF_nan.
  destruct (Prim2SF x); reflexivity.
Qed.

Lemma add_nan_l (y : float) : (PrimFloat.nan + y)%float = PrimFloat.nan.
Proof.
  apply Prim2SF_inj. rewrite add_spec, Prim2SF_nan. reflexivity.
Qed.

Lemma add_nan_r (x : float) : (x + PrimFloat.nan)%float = PrimFloat.nan.
Proof.
  apply Prim2SF_inj. rewrite add_spec, Prim2SF_nan.
  destruct (Prim2SF x); reflexivity.
Qed.

Lemma div_nan_l (y : float) : (PrimFloat.nan / y)%float = PrimFloat.nan.
Proof.
  apply Prim2SF_inj. rewrite div_spec, Prim2SF_nan. reflexivity.
Qed.

Lemma radians_nan : radians PrimFloat.nan = PrimFloat.nan.
Proof. unfold radians. apply mul_nan_l. Qed.

(* math_1 lets a NaN argument through, whatever the C function answers *)
Lemma math_1_nan (f : float -> float) : math_1 f PrimFloat.nan = Ok (f PrimFloat.nan).
Proof.
  unfold math_1.
  change (PrimFloat.is_nan PrimFloat.nan) with true.
  change (PrimFloat.is_finite PrimFloat.nan) with false.
  now rewrite !andb_false_r.
Qed.

Lemma haversine_km_nan : haversine_km PrimFloat.nan = Ok PrimFloat.nan.
Proof.
  unfold haversine_km, math_sqrt. rewrite sub_nan_r, math_1_nan.
  change (PrimFloat.sqrt PrimFloat.nan) with PrimFloat.nan.
  cbn [bind]. unfold math_atan2, m_atan2.
  change (PrimFloat.is_nan PrimFloat.nan) with true. cbn [orb negb andb bind].
  change (PrimFloat.is_nan PrimFloat.nan) with true. cbn [orb negb andb bind].
  now rewrite mul_nan_r.
Qed.

(* the sine of half a difference that is not a number, squared *)
Lemma half_sine_nan :
  PrimFloat.is_nan (libm_sin PrimFloat.nan) = true ->
  (s <- math_sin (PrimFloat.nan / 2)%float ;; float_pow2 s) = Ok PrimFloat.nan.
Proof.
  intros Hs. unfold math_sin. rewrite div_nan_l, math_1_nan.
  rewrite (nan_eq _ Hs). reflexivity.
Qed.

Lemma haversine_a_nan (lat1 lon1 lat2 lon2 a : float) :
  PrimFloat.is_nan (libm_sin PrimFloat.nan) = true ->
  PrimFloat.is_nan (radians lat2 - radians lat1)%float = true \/
  PrimFloat.is_nan (radians lon2 - radians lon1)%float = true ->
  haversine_a lat1 lon1 lat2 lon2 = Ok a -> a = PrimFloat.nan.
Proof.
  intros Hs Hd Ha. unfold haversine_a in Ha. cbv zeta in Ha.
  destruct Hd as [Hd | Hd]; apply nan_eq in Hd; rewrite Hd in Ha.
  - pose proof (half_sine_nan Hs) as Hh.
    destruct (math_sin (PrimFloat.nan / 2)%float) as [s1|]; [|discriminate].
    cbn [bind] in Hh, Ha. rewrite Hh in Ha. cbn [bind] in Ha.
    destruct (math_cos (radians lat1)); [|discriminate].
    destruct (math_cos (radians lat2)); [|discriminate].
    cbn [bind] in Ha.
    destruct (math_sin _) as [s2|]; [|discriminate]. cbn [bind] in Ha.
    destruct (float_pow2 s2); [|discriminate]. cbn [bind] in Ha.
    injection Ha as <-. apply add_nan_l.
  - destruct (math_sin _) as [s1|]; [|discriminate]. cbn [bind] in Ha.
    destruct (float_pow2 s1); [|discriminate]. cbn [bind] in Ha.
    destruct (math_cos (radians lat1)); [|discriminate].
    destruct (math_cos (radians lat2)); [|discriminate].
    cbn [bind] in Ha.
    pose proof (half_sine_nan Hs) as Hh.
    destruct (math_sin (PrimFloat.nan / 2)%float) as [s2|]; [|discriminate].
    cbn [bind] in Hh, Ha. rewrite Hh in Ha. cbn [bind] in Ha.
    injection Ha as <-. rewrite mul_nan_r. apply add_nan_r.
Qed.

Lemma difference_nan (x y : float) :
  PrimFloat.is_nan x = true \/ PrimFloat.is_nan y = true ->
  PrimFloat.is_nan (radians y - radians x)%float = true.
Proof.
  intros [Hx | Hy].
  - rewrite (nan_eq _ Hx), radians_nan, sub_nan_r. reflexivity.
  - rewrite (nan_eq _ Hy), radians_nan, sub_nan_l. reflexivity.
Qed.

Lemma calculate_distance_nan (lat1 lon1 lat2 lon2 d : float) :
  PrimFloat.is_nan (libm_sin PrimFloat.nan) = true ->
  PrimFloat.is_nan (radians lat2 - radians lat1)%float = true \/
  PrimFloat.is_nan (radians lon2 - radians lon1)%float = true ->
  calculate_distance lat1 lon1 lat2 lon2 = Ok d -> d = PrimFloat.nan.
Proof.
  intros Hs Hd Hc. unfold calculate_distance in Hc.
  destruct (haversine_a lat1 lon1 lat2 lon2) as [a|] eqn:Ha; [|discriminate].
  cbn [bind] in Hc. rewrite (haversine_a_nan _ _ _ _ _ Hs Hd Ha) in Hc.
  rewrite haversine_km_nan in Hc. congruence.
Qed.

End NotANumber.

(** X13. A coordinate that is not a number yields NaN, not a distance, and
    raises nothing by itself.  When one of the four arguments is NaN, on a
    platform whose sine answers NaN at NaN, calculate_distance goes through
    its six math calls in order and, when none of them raises, returns NaN.
    The calls that receive the NaN never raise: the squared sine of half a
    NaN difference is NaN, and the cosine of a NaN latitude is accepted
    whatever the C library answers. *)
Theorem nan_coordinate_no_distance `{Platform} (lat1 lon1 lat2 lon2 : float) :
  PrimFloat.is_nan (libm_sin PrimFloat.nan) = true ->
  PrimFloat.is_nan lat1 || PrimFloat.is_nan lon1
  || PrimFloat.is_nan lat2 || PrimFloat.is_nan lon2 = true ->
  calculate_distance lat1 lon1 lat2 lon2
  = (s1 <- math_sin ((radians lat2 - radians lat1) / 2)%float ;;
     _ <- float_pow2 s1 ;;
     _ <- math_cos (radians lat1) ;;
     _ <- math_cos (radians lat2) ;;
     s2 <- math_sin ((radians lon2 - radians lon1) / 2)%float ;;
     _ <- float_pow2 s2 ;;
     Ok PrimFloat.nan) /\
  (forall x, PrimFloat.is_nan x = true ->
     (s <- math_sin (x / 2)%float ;; float_pow2 s) = Ok PrimFloat.nan /\
     math_cos (radians x) = Ok (libm_cos PrimFloat.nan)).
Proof.
  intros Hs Hn. split.
  - assert (Hd : PrimFloat.is_nan (radians lat2 - radians lat1)%float = true \/
                 PrimFloat.is_nan (radians lon2 - radians lon1)%float = true).
    { rewrite !orb_true_iff in Hn. destruct Hn as [[[Hn | Hn] | Hn] | Hn].
      - left. apply difference_nan. now left.
      - right. apply difference_nan. now left.
      - left. apply difference_nan. now right.
      - right. apply difference_nan. now right. }
    assert (Hchain :
              (s1 <- math_sin ((radians lat2 - radians lat1) / 2)%float ;;
               _ <- float_pow2 s1 ;;
               _ <- math_cos (radians lat1) ;;
               _ <- math_cos (radians lat2) ;;
               s2 <- math_sin ((radians lon2 - radians lon1) / 2)%float ;;
               _ <- float_pow2 s2 ;;
               Ok PrimFloat.nan)
              = (_ <- haversine_a lat1 lon1 lat2 lon2 ;; Ok PrimFloat.nan)).
    { unfold haversine_a. cbv zeta.
      destruct (math_sin ((radians lat2 - radians lat1) / 2)%float) as [s1|];
        cbn [bind]; [|reflexivity].
      destruct (float_pow2 s1); cbn [bind]; [|reflexivity].
      destruct (math_cos (radians lat1)); cbn [bind]; [|reflexivity].
      destruct (math_cos (radians lat2)); cbn [bind]; [|reflexivity].
      destruct (math_sin ((radians lon2 - radians lon1) / 2)%float) as [s2|];
        cbn [bind]; [|reflexivity].
      destruct (float_pow2 s2); reflexivity. }
    rewrite Hchain. unfold calculate_distance.
    destruct (haversine_a lat1 lon1 lat2 lon2) as [a|e] eqn:Ha; cbn [bind];
      [|reflexivity].
    rewrite (haversine_a_nan _ _ _ _ _ Hs Hd Ha). apply haversine_km_nan.
  - intros x Hx. rewrite (nan_eq x Hx). split.
    + exact (half_sine_nan Hs).
    + rewrite radians_nan. unfold math_cos. apply math_1_nan.
Qed.

Lemma nan_coordinate_no_distance_witness :
  @calculate_distance reference_platform
    (fst GIVEAWAY_LOCATION) (snd GIVEAWAY_LOCATION) 3 PrimFloat.nan
  = Ok PrimFloat.nan.
Proof.
  rewrite (proj1 (@nan_coordinate_no_distance reference_platform
                    (fst GIVEAWAY_LOCATION) (snd GIVEAWAY_LOCATION)
                    3 PrimFloat.nan eq_refl eq_refl)).
  vm_compute. reflexivity.
Defined.

(** X14. A row whose coordinates cell holds no comma, or is empty, is stored
    without a distance: when such a row is ingested (some other cell had a
    comma), its longitude is NaN and, on a platform whose sine answers NaN
    at NaN, its distance is NaN; the latitude of an empty cell is NaN as
    well. *)
Theorem comma_less_row_no_distance `{Platform} (df : DataFrame) (f : frame)
  (r : label * participant) :
  PrimFloat.is_nan (libm_sin PrimFloat.nan) = true ->
  ingest df = Ok (Ingested f) -> In r f ->
  (forall s, coordinates (snd r) = Some s -> has_comma s = false) ->
  longitude (snd r) = PrimFloat.nan /\
  distance_km (snd r) = PrimFloat.nan /\
  (coordinates (snd r) = None -> latitude (snd r) = PrimFloat.nan).
Proof.
  intros Hs Hing Hin Hcomma.
  destruct (ingest_inversion df f Hing)
    as (_ & cells & names & lats & lons & dists & _ & _ & Hlat & Hlon & Hd & _ & ->).
  apply In_nth_error in Hin. destruct Hin as [i Hi].
  apply build_rows_nth in Hi.
  destruct Hi as (_ & _ & Hc & Hla & Hlo & Hdi).
  pose proof (to_numeric_single _ _ _ i _ Hlat (expand_column_nth 0 i cells _ Hc) Hla)
    as Hlat1.
  pose proof (to_numeric_single _ _ _ i _ Hlon (expand_column_nth 1 i cells _ Hc) Hlo)
    as Hlon1.
  pose proof (mapM_nth row_distance _ _ i _ _ Hd
                (nth_error_combine _ _ i _ _ Hla Hlo) Hdi) as Hdist.
  assert (Hsecond : nth 1 (split_cell (coordinates (snd r))) None = None).
  { destruct (coordinates (snd r)) as [s|]; [|reflexivity].
    pose proof (search_separator_has_comma s) as Hsep.
    rewrite (Hcomma s eq_refl) in Hsep. simpl. unfold regex_split1.
    destruct (search_separator s) as [[b rest]|]; [|reflexivity].
    assert (false = true) by (apply Hsep; eauto). discriminate. }
  rewrite Hsecond in Hlon1. simpl in Hlon1. injection Hlon1 as Hlon1.
  split; [now symmetry|]. split.
  - unfold row_distance in Hdist. simpl in Hdist.
    apply (calculate_distance_nan _ _ _ _ _ Hs) in Hdist; [exact Hdist|].
    right. apply difference_nan. right. rewrite <- Hlon1. reflexivity.
  - intros Hnone. rewrite Hnone in Hlat1. simpl in Hlat1.
    injection Hlat1 as Hlat1. now symmetry.
Qed.

Lemma comma_less_row_no_distance_witness :
  longitude (snd lone_row) = PrimFloat.nan /\
  distance_km (snd lone_row) = PrimFloat.nan /\
  (coordinates (snd lone_row) = None -> latitude (snd lone_row) = PrimFloat.nan).
Proof.
  assert (Hi : @ingest reference_platform lone_number_file
               = Ok (Ingested [cy_row 0 "A"; lone_row]))
    by (vm_compute; reflexivity).
  apply (@comma_less_row_no_distance reference_platform lone_number_file _
           lone_row eq_refl Hi).
  - right. left. reflexivity.
  - intros s Hs. injection Hs as <-. reflexivity.
Defined.

(** * Further properties of the leaderboard *)

Section Ranking.

Lemma filter_length_perm {A : Type} (p : A -> bool) (l l' : list A) :
  Permutation l l' -> List.length (filter p l) = List.length (filter p l').
Proof.
  induction 1 as [|x l l' _ IH|x y l|l l' l'' _ IH1 _ IH2]; simpl.
  - reflexivity.
  - destruct (p x); simpl; congruence.
  - destruct (p x), (p y); reflexivity.
  - congruence.
Qed.

Lemma filter_all {A : Type} (p : A -> bool) (l : list A) :
  Forall (fun x => p x = true) l -> filter p l = l.
Proof.
  induction 1 as [|x l Hx _ IH]; simpl; [reflexivity|]. now rewrite Hx, IH.
Qed.

Lemma filter_none {A : Type} (p : A -> bool) (l : list A) :
  Forall (fun x => p x = false) l -> filter p l = [].
Proof.
  induction 1 as [|x l Hx _ IH]; simpl; [reflexivity|]. now rewrite Hx, IH.
Qed.

Lemma Forall_firstn_nth {A : Type} (P : A -> Prop) (n : nat) (l : list A) :
  (forall k z, k < n -> nth_error l k = Some z -> P z) -> Forall P (firstn n l).
Proof.
  intros Hall. apply Forall_forall. intros z Hz.
  apply In_nth_error in Hz. destruct Hz as [k Hk].
  rewrite nth_error_firstn in Hk.
  destruct (Nat.ltb_spec k n); [|discriminate]. eauto.
Qed.

Lemma Forall_skipn_nth {A : Type} (P : A -> Prop) (n : nat) (l : list A) :
  (forall k z, n <= k -> nth_error l k = Some z -> P z) -> Forall P (skipn n l).
Proof.
  intros Hall. apply Forall_forall. intros z Hz.
  apply In_nth_error in Hz. destruct Hz as [k Hk].
  rewrite nth_error_skipn in Hk. apply (Hall (n + k)); [lia | exact Hk].
Qed.

(* two ascending orders of the same rows hold, at every position, rows that
   are equally far *)
Lemma sorted_perm_nth (s1 s2 : frame) (i : nat) (x y : label * participant) :
  Permutation s1 s2 -> Sorted le_km s1 -> Sorted le_km s2 -> populated s1 ->
  nth_error s1 i = Some x -> nth_error s2 i = Some y -> le_km x y.
Proof.
  intros Hperm Hs1 Hs2 Hpop Hx Hy. unfold populated in Hpop.
  rewrite Forall_forall in Hpop.
  assert (Hpop2 : forall z, In z s2 -> PrimFloat.is_nan (dist z) = false).
  { intros z Hz. apply Hpop. eapply Permutation_in; [symmetry|]; eassumption. }
  assert (Hxn := Hpop x (nth_error_In _ _ Hx)).
  assert (Hyn := Hpop2 y (nth_error_In _ _ Hy)).
  unfold le_km. destruct (dist x <=? dist y)%float eqn:E; [reflexivity|].
  exfalso.
  set (p := fun r : label * participant => (dist r <=? dist y)%float).
  assert (H2 : S i <= List.length (filter p s2)).
  { rewrite <- (firstn_skipn (S i) s2), filter_app, length_app.
    rewrite filter_all.
    - rewrite length_firstn.
      assert (i < List.length s2) by (apply nth_error_Some; congruence). lia.
    - apply Forall_firstn_nth. intros k z Hk Hz.
      apply (sorted_nth_le s2 k i z y Hs2); auto. lia. }
  assert (H1 : List.length (filter p s1) <= i).
  { rewrite <- (firstn_skipn i s1), filter_app, length_app.
    rewrite (filter_none p (skipn i s1)).
    - simpl. rewrite Nat.add_0_r.
      etransitivity; [apply filter_length_le|]. rewrite length_firstn. lia.
    - apply Forall_skipn_nth. intros k z Hk Hz. unfold p.
      destruct (dist z <=? dist y)%float eqn:Ez; [|reflexivity].
      assert (Hzn := Hpop z (nth_error_In _ _ Hz)).
      pose proof (sorted_nth_le s1 i k x z Hs1 Hk Hx Hz Hzn) as Hxz.
      unfold le_km in Hxz. rewrite (leb_trans _ _ _ Hxz Ez) in E.
      discriminate. }
  rewrite (filter_length_perm p s1 s2 Hperm) in H1. lia.
Qed.

(* two results of sort_values hold, at every position, rows that are equally
   far, or the same row without a distance *)
Lemma sort_values_nth (df c1 c2 : frame) (i : nat) (x y : label * participant) :
  sort_values df c1 -> sort_values df c2 ->
  nth_error c1 i = Some x -> nth_error c2 i = Some y ->
  (le_km x y /\ le_km y x) \/ (x = y /\ PrimFloat.is_nan (dist x) = true).
Proof.
  intros (s1 & Hp1 & Hs1 & ->) (s2 & Hp2 & Hs2 & ->) Hx Hy.
  assert (Hperm : Permutation s1 s2).
  { etransitivity; [symmetry; exact Hp1 | exact Hp2]. }
  assert (Hlen := Permutation_length Hperm).
  assert (Hpop1 : populated s1).
  { unfold populated. rewrite Forall_forall. intros z Hz.
    apply has_distance_true.
    apply (Permutation_in _ (Permutation_sym Hp1)), filter_In in Hz. tauto. }
  assert (Hpop2 : populated s2).
  { unfold populated in *. rewrite Forall_forall in *. intros z Hz.
    apply Hpop1. eapply Permutation_in; [symmetry|]; eassumption. }
  destruct (Nat.lt_ge_cases i (List.length s1)) as [Hi | Hi].
  - rewrite nth_error_app1 in Hx, Hy by lia. left. split.
    + exact (sorted_perm_nth s1 s2 i x y Hperm Hs1 Hs2 Hpop1 Hx Hy).
    + exact (sorted_perm_nth s2 s1 i y x (Permutation_sym Hperm) Hs2 Hs1 Hpop2 Hy Hx).
  - rewrite nth_error_app2 in Hx, Hy by lia. rewrite <- Hlen, Hx in Hy.
    injection Hy as <-. right. split; [reflexivity|].
    apply nth_error_In, filter_In in Hx. destruct Hx as [_ Hx].
    unfold has_distance in Hx. now apply negb_true_iff in Hx; apply negb_false_iff in Hx.
Qed.

Lemma head10_nth (c : frame) (i : nat) (e : cell * float) :
  nth_error (head10 (reset_index c)) i = Some e ->
  exists r, nth_error c i = Some r /\ e = (name (snd r), distance_km (snd r)).
Proof.
  rewrite head10_reset_index, nth_error_firstn.
  destruct (i <? 10); [|discriminate]. rewrite nth_error_map.
  destruct (nth_error c i) as [r|]; [|discriminate].
  simpl. intros [= <-]. now exists r.
Qed.

End Ranking.

(** X15. The distance column of the leaderboard does not depend on how the
    sort settles ties: any two leaderboards of the same participants have
    the same number of rows and show, row by row, equal distances (or two
    missing ones); only the names among equally distant rows can differ. *)
Theorem leaderboard_distances_determined (df : frame)
  (board1 board2 : list (cell * float)) :
  leaderboard df board1 -> leaderboard df board2 ->
  List.length board1 = List.length board2 /\
  forall i x y,
    nth_error board1 i = Some x -> nth_error board2 i = Some y ->
    same_distance (snd x) (snd y) = true.
Proof.
  intros (c1 & Hc1 & ->) (c2 & Hc2 & ->). split.
  - rewrite !head10_reset_index, !length_firstn, !length_map.
    now rewrite <- (Permutation_length (sort_values_perm df c1 Hc1)),
                <- (Permutation_length (sort_values_perm df c2 Hc2)).
  - intros i x y Hx Hy.
    apply head10_nth in Hx, Hy.
    destruct Hx as (rx & Hx & ->), Hy as (ry & Hy & ->). simpl.
    unfold same_distance.
    destruct (sort_values_nth df c1 c2 i rx ry Hc1 Hc2 Hx Hy)
      as [[H1 H2] | [<- Hn]].
    + unfold le_km, dist in H1, H2. now rewrite (leb_antisym _ _ H1 H2).
    + unfold dist in Hn. rewrite Hn. apply orb_true_r.
Qed.

Lemma leaderboard_distances_determined_witness :
  List.length [(Text "C", 1); (Text "B", 1); (Text "D", 2); (Text "A", 3)]%float
  = List.length (spec_leaderboard abcd_frame) /\
  forall i x y,
    nth_error [(Text "C", 1); (Text "B", 1); (Text "D", 2); (Text "A", 3)]%float i
    = Some x ->
    nth_error (spec_leaderboard abcd_frame) i = Some y ->
    same_distance (snd x) (snd y) = true.
Proof.
  apply (leaderboard_distances_determined abcd_frame).
  - exact abcd_board_c_first.
  - exists (spec_stable_sort abcd_frame).
    split; [apply spec_stable_sort_allowed | reflexivity].
Defined.

(** X16. Without ties the leaderboard is fixed: when any two participants
    with equal distances are one and the same row, every leaderboard the
    sort may produce is the stable ranking, rows without a distance last
    in their original order. *)
Theorem leaderboard_unique_without_ties (df : frame)
  (board : list (cell * float)) :
  (forall r r', In r df -> In r' df ->
                (dist r =? dist r')%float = true -> r = r') ->
  leaderboard df board -> board = spec_leaderboard df.
Proof.
  intros Hdistinct (c & Hc & ->). unfold spec_leaderboard.
  assert (Hs := spec_stable_sort_allowed df).
  assert (Hp1 := sort_values_perm df c Hc).
  assert (Hp2 := sort_values_perm df _ Hs).
  replace c with (spec_stable_sort df); [reflexivity|].
  apply nth_error_ext. intros i.
  destruct (nth_error (spec_stable_sort df) i) as [x|] eqn:Hx.
  - assert (Hi : i < List.length c).
    { rewrite <- (Permutation_length Hp1), (Permutation_length Hp2).
      apply nth_error_Some. congruence. }
    destruct (nth_error c i) as [y|] eqn:Hy;
      [|apply nth_error_None in Hy; lia].
    f_equal.
    destruct (sort_values_nth df _ c i x y Hs Hc Hx Hy) as [[H1 H2] | [E _]];
      [|exact E].
    apply Hdistinct.
    + apply (Permutation_in _ (Permutation_sym Hp2)). eapply nth_error_In; eassumption.
    + apply (Permutation_in _ (Permutation_sym Hp1)). eapply nth_error_In; eassumption.
    + exact (leb_antisym _ _ H1 H2).
  - symmetry. apply nth_error_None. apply nth_error_None in Hx.
    rewrite <- (Permutation_length Hp1), (Permutation_length Hp2). exact Hx.
Qed.

Lemma nan_first_board :
  leaderboard nan_first_frame
    [(Text "Q", 4); (Text "P", 5); (Text "N", PrimFloat.nan)]%float.
Proof.
  exists [entrant 2 "Q" 4; entrant 1 "P" 5; entrant 0 "N" PrimFloat.nan]%float.
  split; [|reflexivity].
  exists [entrant 2 "Q" 4; entrant 1 "P" 5]%float. split; [|split].
  - change (filter has_distance nan_first_frame)
      with [entrant 1 "P" 5; entrant 2 "Q" 4]%float.
    apply perm_swap.
  - repeat constructor.
  - reflexivity.
Qed.

Lemma leaderboard_unique_without_ties_witness :
  [(Text "Q", 4); (Text "P", 5); (Text "N", PrimFloat.nan)]%float
  = spec_leaderboard nan_first_frame.
Proof.
  apply (leaderboard_unique_without_ties nan_first_frame).
  - intros r r' [<- | [<- | [<- | []]]] [<- | [<- | [<- | []]]] E;
      first [reflexivity | vm_compute in E; discriminate].
  - exact nan_first_board.
Defined.

(** * Further properties of the winner page and of repeated draws *)

Section Draws.

Context `{Platform}.

(* one run without a file keeps the participants, and leaves the winner or
   stores the draw of these participants *)
Lemma run_no_file (s : session_state) (df : frame) (ev : event) :
  participants s = Some df -> no_file ev ->
  participants (run s ev) = Some df /\
  (winner (run s ev) = winner s \/
   exists w, draw_winner df = Ok w /\ winner (run s ev) = Some w).
Proof.
  intros Hp Hev. destruct s as [pg ps w0]. simpl in Hp. subst ps.
  destruct ev as [[up|] | draw_clicked | ]; simpl in *.
  - contradiction.
  - split; [reflexivity | now left].
  - unfold map_page. simpl.
    destruct draw_clicked; [|split; [reflexivity | now left]].
    destruct (draw_winner df) as [w|e] eqn:Hd; simpl.
    + split; [reflexivity|]. right. now exists w.
    + split; [reflexivity | now left].
  - unfold winner_page. simpl.
    destruct w0 as [[r|rs]|]; [destruct (name (snd r))| |]; simpl;
      (split; [reflexivity | now left]).
Qed.

End Draws.

(** X17. A drawn winner whose name is not text breaks the winner page: when
    the draw returns a row with an empty or numeric name cell, or several
    rows under one label, the draw still stores it and moves to the winner
    page, and the winner page then raises AttributeError at the banner and
    leaves the session as it is. *)
Theorem unnamed_winner_faults `{Platform} (s : session_state) (df : frame)
  (sel : selection) :
  participants s = Some df -> draw_winner df = Ok sel ->
  (forall r t, sel = Row r -> name (snd r) <> Text t) ->
  fst (map_page s true)
  = {| page := winner_view; participants := Some df; winner := Some sel |} /\
  winner_page (fst (map_page s true))
  = (fst (map_page s true), WinnerFault AttributeError).
Proof.
  intros Hp Hd Hname.
  assert (Hm : fst (map_page s true)
               = {| page := winner_view; participants := Some df;
                    winner := Some sel |}).
  { unfold map_page. now rewrite Hp, Hd. }
  split; [exact Hm|]. rewrite Hm. unfold winner_page. simpl.
  destruct sel as [r|rs]; [|reflexivity].
  destruct (name (snd r)) as [t | v | ] eqn:Hn; [|reflexivity|reflexivity].
  elim (Hname r t eq_refl Hn).
Qed.

Lemma unnamed_winner_faults_witness :
  winner_page
    (fst (map_page {| page := map_view; participants := Some unnamed_frame;
                      winner := None |} true))
  = (fst (map_page {| page := map_view; participants := Some unnamed_frame;
                      winner := None |} true),
     WinnerFault AttributeError).
Proof.
  apply (unnamed_winner_faults _ unnamed_frame
           (Row (RangePos 0,
                 {| name := Missing; coordinates := Some "1,2"%string;
                    latitude := 1%float; longitude := 2%float;
                    distance_km := 1%float |}))).
  - reflexivity.
  - vm_compute. reflexivity.
  - intros r t Hr. injection Hr as <-. discriminate.
Defined.

(** X18. Between two uploads the winner cannot change: over any runs in
    which no file is uploaded, the participants stay the same and the
    stored winner is either the one stored before or the result of the
    draw on these participants, which is the same row at every draw. *)
Theorem winner_fixed_between_uploads `{Platform} (s : session_state)
  (df : frame) (evs : list event) :
  participants s = Some df -> Forall no_file evs ->
  participants (runs s evs) = Some df /\
  (winner (runs s evs) = winner s \/
   exists w, draw_winner df = Ok w /\ winner (runs s evs) = Some w).
Proof.
  intros Hp Hevs. revert s Hp.
  induction Hevs as [|ev evs Hev _ IH]; intros s Hp; simpl.
  - split; [exact Hp | now left].
  - destruct (run_no_file s df ev Hp Hev) as [Hp' Hw'].
    destruct (IH (run s ev) Hp') as [Hp'' Hw''].
    split; [exact Hp''|].
    destruct Hw'' as [Hsame | Hdrawn]; [|now right].
    unfold runs in *. rewrite Hsame. exact Hw'.
Qed.

Lemma winner_fixed_between_uploads_witness :
  participants
    (@runs reference_platform loaded_session [RunMap true; RunWinner; RunMap true])
  = Some tie_frame /\
  (winner
     (@runs reference_platform loaded_session [RunMap true; RunWinner; RunMap true])
   = winner loaded_session \/
   exists w,
     draw_winner tie_frame = Ok w /\
     winner
       (@runs reference_platform loaded_session [RunMap true; RunWinner; RunMap true])
     = Some w).
Proof.
  apply (@winner_fixed_between_uploads reference_platform loaded_session tie_frame).
  - reflexivity.
  - repeat constructor.
Defined.

(** * Further properties of the distance: infinite coordinates *)

Section Infinite.

Context `{Platform}.

Lemma is_infinity_spec (x : float) :
  PrimFloat.is_infinity x = true <-> exists s, Prim2SF x = S754_infinity s.
Proof.
  unfold PrimFloat.is_infinity.
  rewrite FloatAxioms.eqb_spec, abs_spec, Prim2SF_infinity.
  destruct (Prim2SF x) as [s|s| |s m e]; cbn.
  - split; [discriminate | intros [s' Hs]; discriminate].
  - split; [eauto | reflexivity].
  - split; [discriminate | intros [s' Hs]; discriminate].
  - split; [discriminate | intros [s' Hs]; discriminate].
Qed.

Lemma infinity_not_nan (x : float) :
  PrimFloat.is_infinity x = true -> PrimFloat.is_nan x = false.
Proof.
  intros Hx. apply is_infinity_spec in Hx. destruct Hx as [s Hs].
  apply not_nan_spec. rewrite Hs. discriminate.
Qed.

Lemma infinity_cases (x : float) :
  PrimFloat.is_infinity x = true ->
  x = PrimFloat.infinity \/ x = PrimFloat.neg_infinity.
Proof.
  intros Hx. apply is_infinity_spec in Hx. destruct Hx as [[] Hs].
  - right. apply Prim2SF_inj. rewrite Hs. vm_compute. reflexivity.
  - left. apply Prim2SF_inj. rewrite Hs. vm_compute. reflexivity.
Qed.

Lemma radians_infinity (x : float) :
  PrimFloat.is_infinity x = true -> PrimFloat.is_infinity (radians x) = true.
Proof.
  rewrite !is_infinity_spec. intros [s Hs]. unfold radians.
  rewrite mul_spec, Prim2SF_degToRad, Hs. cbn. eauto.
Qed.

Lemma Prim2SF_two : Prim2SF 2%float = S754_finite false 4503599627370496 (-51).
Proof. vm_compute. reflexivity. Qed.

(* half the difference of an infinite angle and a finite one is infinite *)
Lemma half_difference_infinity (x y : float) :
  PrimFloat.is_finite x = true -> PrimFloat.is_infinity y = true ->
  PrimFloat.is_infinity ((y - x) / 2)%float = true.
Proof.
  rewrite is_finite_spec, !is_infinity_spec. intros Hx [s Hs].
  rewrite div_spec, sub_spec, Prim2SF_two, Hs.
  destruct Hx as [[s' ->] | (s' & m & e & ->)]; cbn; eauto.
Qed.

Lemma math_sin_infinity (x : float) :
  (forall y, PrimFloat.is_infinity y = true ->
             PrimFloat.is_nan (libm_sin y) = true) ->
  PrimFloat.is_infinity x = true -> math_sin x = Raise ValueError.
Proof.
  intros Hsin Hx. unfold math_sin, math_1.
  now rewrite (Hsin x Hx), (infinity_not_nan x Hx).
Qed.

End Infinite.

(** X19. An infinite coordinate is refused with an exception: from a point
    with finite coordinates, on a platform whose sine answers NaN at the
    infinities, an infinite latitude makes calculate_distance raise
    ValueError at its first sine, and an infinite longitude makes it raise
    as well (at the second sine, unless an earlier call already raised). *)
Theorem infinite_coordinate_raises `{Platform} (lat1 lon1 lat2 lon2 : float) :
  (forall y, PrimFloat.is_infinity y = true ->
             PrimFloat.is_nan (libm_sin y) = true) ->
  PrimFloat.is_finite lat1 = true -> PrimFloat.is_finite lon1 = true ->
  (PrimFloat.is_infinity lat2 = true ->
   calculate_distance lat1 lon1 lat2 lon2 = Raise ValueError) /\
  (PrimFloat.is_infinity lon2 = true ->
   exists e, calculate_distance lat1 lon1 lat2 lon2 = Raise e).
Proof.
  intros Hsin Hlat1 Hlon1.
  apply radians_finite in Hlat1, Hlon1.
  unfold calculate_distance, haversine_a. cbv zeta. split.
  - intros Hlat2. apply radians_infinity in Hlat2.
    rewrite (math_sin_infinity _ Hsin
               (half_difference_infinity _ _ Hlat1 Hlat2)).
    reflexivity.
  - intros Hlon2. apply radians_infinity in Hlon2.
    rewrite (math_sin_infinity _ Hsin
               (half_difference_infinity _ _ Hlon1 Hlon2)).
    destruct (math_sin _) as [s1|e1]; cbn [bind]; [|eauto].
    destruct (float_pow2 s1) as [p1|e2]; cbn [bind]; [|eauto].
    destruct (math_cos (radians lat1)) as [c1|e3]; cbn [bind]; [|eauto].
    destruct (math_cos (radians lat2)) as [c2|e4]; cbn [bind]; [|eauto].
    eauto.
Qed.

Lemma infinite_coordinate_raises_witness :
  @calculate_distance reference_platform
    (fst GIVEAWAY_LOCATION) (snd GIVEAWAY_LOCATION) PrimFloat.infinity 2
  = Raise ValueError.
Proof.
  apply (@infinite_coordinate_raises reference_platform
           (fst GIVEAWAY_LOCATION) (snd GIVEAWAY_LOCATION) PrimFloat.infinity 2).
  - intros y Hy.
    destruct (@infinity_cases y Hy) as [-> | ->]; vm_compute; reflexivity.
  - reflexivity.
  - reflexivity.
  - reflexivity.
Defined.
